(** * TOOM: watchlist store and quote aggregator

    A shallow embedding of [database.py], [seed_data.py], [market_data.py]
    and the watchlist route of [app.py], followed by the properties of the
    store and of the aggregator.

    Conventions of the embedding.
    - A Python [str] is a [string]; the text handled here (ticker symbols,
      tab names) is ASCII, so [upper] maps [a-z] to [A-Z] and [isspace]
      is Python's whitespace test below code point 128.  Characters from
      128 on are left alone by [upper] and are no whitespace.
    - An SQLite table is the list of its rows in rowid order; INTEGER
      columns are [Z] (their values stay far from the 64-bit bounds).
    - [CURRENT_TIMESTAMP] and [datetime.now()] are an argument [now].
    - A Python computation that may raise has type [py A]. *)

From Stdlib Require Import ZArith List String Ascii Lia QArith.
From stdpp Require Import base option list sorting gmap strings.

Local Open Scope Z_scope.
Local Open Scope string_scope.
Local Open Scope list_scope.

(** ** Python exceptions *)

Module python.

Inductive exn : Type :=
  | IntegrityError      (* sqlite3.IntegrityError *)
  | OperationalError    (* sqlite3.OperationalError *)
  | Exception.          (* any other subclass of Exception *)

Inductive py (A : Type) : Type :=
  | Ok (a : A)
  | Raise (e : exn).
Arguments Ok {A} a.
Arguments Raise {A} e.

(** Sequencing: an exception raised by the first computation propagates.
    Written [x ← m; k] below. *)
#[global] Instance py_ret : MRet py := fun A a => Ok a.
#[global] Instance py_bind : MBind py := fun A B k m =>
  match m with
  | Ok a => k a
  | Raise e => Raise e
  end.

(** [try: m  except Exception: h] *)
Definition try_except {A} (m : py A) (h : py A) : py A :=
  match m with
  | Ok a => Ok a
  | Raise _ => h
  end.

(** ** [str] methods *)

(** [str.isspace] on one ASCII character: TAB..CR, FS..US and the space. *)
Definition isspace (c : ascii) : bool :=
  let n := N_of_ascii c in
  ((9 <=? n) && (n <=? 13) || (28 <=? n) && (n <=? 32))%N.

Definition upper_char (c : ascii) : ascii :=
  let n := N_of_ascii c in
  if ((97 <=? n) && (n <=? 122))%N then ascii_of_N (n - 32) else c.

(** [s.upper()] *)
Fixpoint upper (s : string) : string :=
  match s with
  | EmptyString => EmptyString
  | String c s' => String (upper_char c) (upper s')
  end.

(** [s.lstrip()] *)
Fixpoint lstrip (s : string) : string :=
  match s with
  | EmptyString => EmptyString
  | String c s' => if isspace c then lstrip s' else s
  end.

(** [s.rstrip()] *)
Fixpoint rstrip (s : string) : string :=
  match s with
  | EmptyString => EmptyString
  | String c s' =>
      match rstrip s' with
      | EmptyString => if isspace c then EmptyString else String c EmptyString
      | r => String c r
      end
  end.

(** [s.strip()] *)
Definition strip (s : string) : string := lstrip (rstrip s).

(** [bool(s)] for a [str]: the empty string is falsy. *)
Definition str_truthy (s : string) : bool :=
  match s with
  | EmptyString => false
  | String _ _ => true
  end.

(** [enumerate(l, start)] with integer indices. *)
Fixpoint enumerate_from {A} (start : Z) (l : list A) : list (Z * A) :=
  match l with
  | [] => []
  | x :: l' => (start, x) :: enumerate_from (start + 1) l'
  end.

Definition enumerate {A} (l : list A) : list (Z * A) := enumerate_from 0 l.

End python.

Import python.

(** ** seed_data.py *)

Module seed_data.

Definition DEFAULT_TABS : list (string * Z) :=
  [ ("Main", 0); ("MAG7", 1); ("AA", 2); ("US Sectors", 3) ].

(** A [dict] literal: the pairs in insertion order, which is the order
    [.items()] yields them in. *)
Definition DEFAULT_WATCHLIST : list (string * list (string * string)) :=
  [ ("Main",
      [ ("AEM", "Agnico Eagle Mines");
        ("TLT", "20+ Year Treasury ETF");
        ("VTI", "Total Stock Market ETF");
        ("FSAGX", "Fidelity Gold Fund") ]);
    ("MAG7",
      [ ("AAPL", "Apple Inc.");
        ("AMZN", "Amazon.com Inc.");
        ("GOOG", "Alphabet Inc.");
        ("META", "Meta Platforms Inc.");
        ("TSLA", "Tesla Inc.");
        ("MSFT", "Microsoft Corporation");
        ("NVDA", "NVIDIA Corporation");
        ("MAGS", "Roundhill Magnificent Seven ETF") ]);
    ("AA",
      [ ("ACWI", "iShares MSCI ACWI ETF");
        ("EFA", "iShares MSCI EAFE ETF");
        ("EEM", "iShares MSCI Emerging Markets ETF");
        ("BCOM.XA", "Bloomberg Commodity Index");
        ("GLD", "SPDR Gold Shares");
        ("SLV", "iShares Silver Trust");
        ("SPY", "SPDR S&P 500 ETF");
        ("IWM", "iShares Russell 2000 ETF") ]);
    ("US Sectors",
      [ ("XLK", "Technology");
        ("XLF", "Financials");
        ("XLV", "Health Care");
        ("XLY", "Consumer Discretionary");
        ("XLC", "Communication Services");
        ("XLI", "Industrials");
        ("XLP", "Consumer Staples");
        ("XLE", "Energy");
        ("XLU", "Utilities");
        ("XLRE", "Real Estate");
        ("XLB", "Materials") ]) ].

End seed_data.

(** ** database.py *)

Module database.

(** A row of [tabs]. *)
Record Tab : Type := {
  t_id : Z;
  t_name : string;
  t_sort_order : Z;
  t_created_at : Z
}.

(** A row of [watchlist]. *)
Record Entry : Type := {
  w_id : Z;
  w_tab_id : Z;
  w_ticker : string;
  w_name : string;
  w_sort_order : Z;
  w_added_at : Z
}.

(** The database file: both tables and, for each, the counter that
    AUTOINCREMENT keeps in [sqlite_sequence]. *)
Record Store : Type := {
  tabs : list Tab;
  watchlist : list Entry;
  tabs_seq : Z;
  watchlist_seq : Z
}.

(** A row of a [watchlist] table created before the [sort_order] column
    existed, and the databases [init_db] can find on disk: one whose
    watchlist table lacks the column, or one with the present schema
    (a new file is [Current empty_store] once the CREATE TABLE IF NOT
    EXISTS statements have run). *)
Record LegacyEntry : Type := {
  l_id : Z;
  l_tab_id : Z;
  l_ticker : string;
  l_name : string;
  l_added_at : Z
}.

Inductive Database : Type :=
  | Legacy (ts : list Tab) (ws : list LegacyEntry) (tseq wseq : Z)
  | Current (s : Store).

Definition empty_store : Store :=
  {| tabs := []; watchlist := []; tabs_seq := 0; watchlist_seq := 0 |}.

(** The dictionaries [get_tabs], [create_tab] and [get_watchlist] return. *)
Record TabDict : Type := {
  d_id : Z;
  d_name : string;
  d_sort_order : Z
}.

Record WatchDict : Type := {
  wd_id : Z;
  wd_tab_id : Z;
  wd_ticker : string;
  wd_name : string
}.

(** *** SQL building blocks *)

(** [MAX(col)]: NULL over no rows. *)
Definition sql_max (l : list Z) : option Z :=
  match l with
  | [] => None
  | x :: l' => Some (fold_left Z.max l' x)
  end.

Definition COALESCE (v : option Z) (d : Z) : Z := default d v.

(** The rowid AUTOINCREMENT picks: one more than the largest rowid the
    table ever held. *)
Definition next_rowid (seq : Z) (ids : list Z) : Z :=
  fold_right Z.max seq ids + 1.

Definition set_t_name (n : string) (t : Tab) : Tab :=
  {| t_id := t_id t; t_name := n;
     t_sort_order := t_sort_order t; t_created_at := t_created_at t |}.

Definition set_w_sort_order (i : Z) (e : Entry) : Entry :=
  {| w_id := w_id e; w_tab_id := w_tab_id e; w_ticker := w_ticker e;
     w_name := w_name e; w_sort_order := i; w_added_at := w_added_at e |}.

(** [ORDER BY sort_order, id] *)
Definition tabs_order (a b : Tab) : Prop :=
  t_sort_order a < t_sort_order b
  ∨ (t_sort_order a = t_sort_order b ∧ t_id a <= t_id b).

(** [ORDER BY sort_order, added_at] *)
Definition watchlist_order (a b : Entry) : Prop :=
  w_sort_order a < w_sort_order b
  ∨ (w_sort_order a = w_sort_order b ∧ w_added_at a <= w_added_at b).

(** [ORDER BY tab_id, added_at] *)
Definition backfill_order (a b : Entry) : Prop :=
  w_tab_id a < w_tab_id b
  ∨ (w_tab_id a = w_tab_id b ∧ w_added_at a <= w_added_at b).

#[global] Instance tabs_order_dec : RelDecision tabs_order.
Proof. intros a b. unfold tabs_order. apply _. Defined.
#[global] Instance watchlist_order_dec : RelDecision watchlist_order.
Proof. intros a b. unfold watchlist_order. apply _. Defined.
#[global] Instance backfill_order_dec : RelDecision backfill_order.
Proof. intros a b. unfold backfill_order. apply _. Defined.

(** [INSERT INTO tabs (name, sort_order) VALUES (?, ?)]; returns
    [cursor.lastrowid]. *)
Definition insert_tab (s : Store) (name : string) (sort_order now : Z)
  : Z * Store :=
  let rowid := next_rowid (tabs_seq s) (t_id <$> tabs s) in
  (rowid,
   {| tabs := tabs s ++ [ {| t_id := rowid; t_name := name;
                             t_sort_order := sort_order;
                             t_created_at := now |} ];
      watchlist := watchlist s;
      tabs_seq := rowid;
      watchlist_seq := watchlist_seq s |}).

(** UNIQUE(tab_id, ticker) would be violated by a new row. *)
Definition unique_violation (s : Store) (tab_id : Z) (ticker : string) : bool :=
  bool_decide (Exists (λ e, w_tab_id e = tab_id ∧ w_ticker e = ticker)
                      (watchlist s)).

(** FOREIGN KEY (tab_id) REFERENCES tabs(id) would be violated: the
    connection runs with [PRAGMA foreign_keys = ON]. *)
Definition fk_violation (s : Store) (tab_id : Z) : bool :=
  bool_decide (Forall (λ t, t_id t ≠ tab_id) (tabs s)).

Definition append_watchlist (s : Store) (tab_id : Z) (ticker name : string)
    (sort_order now : Z) : Store :=
  let rowid := next_rowid (watchlist_seq s) (w_id <$> watchlist s) in
  {| tabs := tabs s;
     watchlist := watchlist s ++
       [ {| w_id := rowid; w_tab_id := tab_id; w_ticker := ticker;
            w_name := name; w_sort_order := sort_order;
            w_added_at := now |} ];
     tabs_seq := tabs_seq s;
     watchlist_seq := rowid |}.

(** [INSERT INTO watchlist (tab_id, ticker, name, sort_order) VALUES ...] *)
Definition insert_watchlist (s : Store) (tab_id : Z) (ticker name : string)
    (sort_order now : Z) : py Store :=
  if unique_violation s tab_id ticker || fk_violation s tab_id
  then Raise IntegrityError
  else Ok (append_watchlist s tab_id ticker name sort_order now).

(** [INSERT OR IGNORE INTO watchlist ...]: a uniqueness conflict skips the
    row; a foreign-key violation still raises. *)
Definition insert_or_ignore_watchlist (s : Store) (tab_id : Z)
    (ticker name : string) (sort_order now : Z) : py Store :=
  if unique_violation s tab_id ticker then Ok s
  else if fk_violation s tab_id then Raise IntegrityError
  else Ok (append_watchlist s tab_id ticker name sort_order now).

(** [UPDATE watchlist SET sort_order = ? WHERE id = ?] *)
Definition update_sort_order_by_id (order id : Z) (w : list Entry)
  : list Entry :=
  (λ e, if decide (w_id e = id) then set_w_sort_order order e else e) <$> w.

(** [UPDATE watchlist SET sort_order = ? WHERE tab_id = ? AND ticker = ?] *)
Definition update_sort_order (tab_id : Z) (ticker : string) (i : Z)
    (w : list Entry) : list Entry :=
  (λ e, if decide (w_tab_id e = tab_id ∧ w_ticker e = ticker)
        then set_w_sort_order i e else e) <$> w.

(** *** init_db *)

(** The migration branch: ALTER TABLE gives every row [sort_order] 0, then
    the loop renumbers the rows of each tab in [added_at] order.  A loop
    state is [(cur_tab, order, rows of the table)]. *)
Definition backfill_step (st : option Z * Z * list Entry) (row : Z * Z)
  : option Z * Z * list Entry :=
  let '(cur_tab, order, w) := st in
  let '(id, tab_id) := row in
  let order := if decide (Some tab_id = cur_tab) then order else 0 in
  (Some tab_id, order + 1, update_sort_order_by_id order id w).

Definition migrate (ts : list Tab) (ws : list LegacyEntry) (tseq wseq : Z)
  : Store :=
  let w0 := (λ l, {| w_id := l_id l; w_tab_id := l_tab_id l;
                     w_ticker := l_ticker l; w_name := l_name l;
                     w_sort_order := 0; w_added_at := l_added_at l |}) <$> ws in
  let rows := (λ e, (w_id e, w_tab_id e)) <$> merge_sort backfill_order w0 in
  {| tabs := ts;
     watchlist := (fold_left backfill_step rows (None, 0, w0)).2;
     tabs_seq := tseq;
     watchlist_seq := wseq |}.

(** [{row["name"]: row["id"] for row in tabs}]: a later row replaces an
    earlier one of the same name. *)
Definition tab_map (ts : list Tab) : gmap string Z :=
  fold_left (λ m t, <[t_name t := t_id t]> m) ts ∅.

(** The inner loop of the seeding, for one tab. *)
Definition seed_tab (tab_id now : Z) (tickers : list (string * string))
    (s : Store) : py Store :=
  fold_left
    (λ acc row, s ← acc;
       insert_or_ignore_watchlist s tab_id row.2.1 row.2.2 row.1 now)
    (enumerate tickers) (Ok s).

(** The outer loop: [if not tab_id: continue] skips a name without a tab
    (and a tab whose id would be 0). *)
Definition seed_watchlist (m : gmap string Z) (now : Z)
    (defaults : list (string * list (string * string))) (s : Store)
  : py Store :=
  fold_left
    (λ acc item, s ← acc;
       match m !! item.1 with
       | Some tab_id =>
           if decide (tab_id = 0) then Ok s
           else seed_tab tab_id now item.2 s
       | None => Ok s
       end)
    defaults (Ok s).

Definition seed_tabs (now : Z) (defaults : list (string * Z)) (s : Store)
  : Store :=
  fold_left (λ s tab_def, (insert_tab s tab_def.1 tab_def.2 now).2) defaults s.

Definition init_db (db : Database) (now : Z) : py Store :=
  let s := match db with
           | Legacy ts ws tseq wseq => migrate ts ws tseq wseq
           | Current s => s
           end in
  let tab_count := length (tabs s) in
  if decide (tab_count = 0%nat) then
    let s1 := seed_tabs now seed_data.DEFAULT_TABS s in
    seed_watchlist (tab_map (tabs s1)) now seed_data.DEFAULT_WATCHLIST s1
  else Ok s.

(** *** Tab operations *)

Definition get_tabs (s : Store) : list TabDict :=
  (λ t, {| d_id := t_id t; d_name := t_name t;
           d_sort_order := t_sort_order t |})
    <$> merge_sort tabs_order (tabs s).

Definition create_tab (s : Store) (name : string) (now : Z)
  : TabDict * Store :=
  let max_order := COALESCE (sql_max (t_sort_order <$> tabs s)) 0 in
  let '(tab_id, s') := insert_tab s (strip name) (max_order + 1) now in
  ({| d_id := tab_id; d_name := strip name; d_sort_order := max_order + 1 |},
   s').

Definition rename_tab (s : Store) (tab_id : Z) (new_name : string)
  : bool * Store :=
  let rowcount := length (filter (λ t, t_id t = tab_id) (tabs s)) in
  (bool_decide (0 < rowcount)%nat,
   {| tabs := (λ t, if decide (t_id t = tab_id)
                    then set_t_name (strip new_name) t else t) <$> tabs s;
      watchlist := watchlist s;
      tabs_seq := tabs_seq s;
      watchlist_seq := watchlist_seq s |}).

(** [DELETE FROM tabs WHERE id = ?]; with foreign keys on, ON DELETE
    CASCADE removes the watchlist rows of every deleted tab. *)
Definition delete_from_tabs (s : Store) (tab_id : Z) : nat * Store :=
  let rowcount := length (filter (λ t, t_id t = tab_id) (tabs s)) in
  (rowcount,
   {| tabs := filter (λ t, t_id t ≠ tab_id) (tabs s);
      watchlist := if decide (rowcount = 0%nat) then watchlist s
                   else filter (λ e, w_tab_id e ≠ tab_id) (watchlist s);
      tabs_seq := tabs_seq s;
      watchlist_seq := watchlist_seq s |}).

Definition delete_tab (s : Store) (tab_id : Z) : bool * Store :=
  let count := length (tabs s) in
  if decide (count <= 1)%nat then (false, s)
  else
    let '(rowcount, s') := delete_from_tabs s tab_id in
    (bool_decide (0 < rowcount)%nat, s').

(** *** Watchlist operations *)

(** Rows that agree on both sort keys come out in the order the merge
    sort leaves them; SQL does not fix their order. *)
Definition get_watchlist (s : Store) (tab_id : Z) : list WatchDict :=
  (λ e, {| wd_id := w_id e; wd_tab_id := w_tab_id e;
           wd_ticker := w_ticker e; wd_name := w_name e |})
    <$> merge_sort watchlist_order
          (filter (λ e, w_tab_id e = tab_id) (watchlist s)).

Definition add_ticker (s : Store) (tab_id : Z) (ticker name : string)
    (now : Z) : py (bool * Store) :=
  let max_order :=
    COALESCE (sql_max (w_sort_order <$>
                filter (λ e, w_tab_id e = tab_id) (watchlist s))) (-1) in
  match insert_watchlist s tab_id (strip (upper ticker)) name
                         (max_order + 1) now with
  | Ok s' => Ok (true, s')
  | Raise IntegrityError => Ok (false, s)
  | Raise e => Raise e
  end.

Definition reorder_watchlist (s : Store) (tab_id : Z) (tickers : list string)
  : bool * Store :=
  (true,
   {| tabs := tabs s;
      watchlist :=
        fold_left (λ w it, update_sort_order tab_id (strip (upper it.2)) it.1 w)
                  (enumerate tickers) (watchlist s);
      tabs_seq := tabs_seq s;
      watchlist_seq := watchlist_seq s |}).

Definition remove_ticker (s : Store) (tab_id : Z) (ticker : string)
  : bool * Store :=
  let hit := λ e, w_tab_id e = tab_id ∧ w_ticker e = strip (upper ticker) in
  let rowcount := length (filter hit (watchlist s)) in
  (bool_decide (0 < rowcount)%nat,
   {| tabs := tabs s;
      watchlist := filter (λ e, ¬ hit e) (watchlist s);
      tabs_seq := tabs_seq s;
      watchlist_seq := watchlist_seq s |}).

End database.

(** ** app.py: the route that adds a ticker *)

Module app.
Import database.

Record JSONResponse : Type := {
  status_code : Z;
  content : list (string * string)
}.

(** [POST /api/watchlist/{tab_id}/{ticker}] *)
Definition api_add_to_watchlist (s : Store) (tab_id : Z)
    (ticker name : string) (now : Z) : py (JSONResponse * Store) :=
  r ← add_ticker s tab_id (upper ticker) name now;
  let '(success, s') := r in
  if success : bool then
    Ok ({| status_code := 200;
           content := [ ("status", "added"); ("ticker", upper ticker) ] |}, s')
  else
    Ok ({| status_code := 409;
           content := [ ("status", "exists");
                        ("message", upper ticker +:+ " already in this list") ] |},
        s').

End app.

(** ** market_data.py *)

Module market_data.

(** The numbers of a quote are floats ([numpy.float64] from the price
    history, [float] from the provider's JSON).  The embedding takes their
    operations as an interface: subtraction, division and multiplication
    (total: a division by zero yields an infinity or NaN, it does not
    raise), the literals, [round(x, 2)], the truth value [bool(x)], the test
    [x > 0], which only a non-zero number passes, and [int(x)], which
    raises on NaN and on the infinities. *)
Class PyFloat (F : Type) : Type := {
  fsub : F → F → F;
  fdiv : F → F → F;
  fmul : F → F → F;
  of_int : Z → F;
  round2 : F → F;
  truthy : F → bool;
  gt0 : F → bool;
  to_int : F → py Z;
  gt0_truthy : ∀ x, gt0 x = true → truthy x = true
}.

(** A key of the provider's [info] dictionary: missing, present with the
    JSON value null, or present with a value. *)
Inductive jfield (A : Type) : Type :=
  | Absent
  | JNull
  | Present (a : A).
Arguments Absent {A}.
Arguments JNull {A}.
Arguments Present {A} a.

(** [info.get(key)] and [info.get(key, d)]; the result [None] is Python's
    [None]. *)
Definition get {A} (f : jfield A) : option A :=
  match f with
  | Present a => Some a
  | _ => None
  end.

Definition get_default {A} (f : jfield A) (d : A) : option A :=
  match f with
  | Absent => Some d
  | JNull => None
  | Present a => Some a
  end.

Record Info (F : Type) : Type := {
  shortName : jfield string;
  longName : jfield string;
  fiftyTwoWeekHigh : jfield F;
  fiftyTwoWeekLow : jfield F;
  trailingPE : jfield F;
  forwardPE : jfield F;
  preMarketPrice : jfield F;
  postMarketPrice : jfield F
}.
Arguments shortName {F} _.
Arguments longName {F} _.
Arguments fiftyTwoWeekHigh {F} _.
Arguments fiftyTwoWeekLow {F} _.
Arguments trailingPE {F} _.
Arguments forwardPE {F} _.
Arguments preMarketPrice {F} _.
Arguments postMarketPrice {F} _.

(** One daily bar, and the frame [t.history(period="5d")] returns: its
    rows, oldest first, and whether it has a Volume column. *)
Record Bar (F : Type) : Type := {
  Close : F;
  High : F;
  Low : F;
  Volume : F
}.
Arguments Close {F} _.
Arguments High {F} _.
Arguments Low {F} _.
Arguments Volume {F} _.

Record DataFrame (F : Type) : Type := {
  rows : list (Bar F);
  has_volume : bool
}.
Arguments rows {F} _.
Arguments has_volume {F} _.

(** [yf.Ticker(ticker)]: what its two requests answer.  [history] also
    stands for the construction of the object and for [t.fast_info], which
    run before it inside the same [try]. *)
Record Ticker (F : Type) : Type := {
  history : py (DataFrame F);
  info : py (Info F)
}.
Arguments history {F} _.
Arguments info {F} _.

(** The provider answers one way per symbol during a bulk fetch. *)
Definition Provider (F : Type) : Type := string → Ticker F.

(** The dictionary [get_quote] returns. *)
Record Quote (F : Type) : Type := {
  q_ticker : string;
  q_name : option string;
  q_long_name : option string;
  q_price : F;
  q_change : F;
  q_change_pct : F;
  q_prev_close : F;
  q_high : F;
  q_low : F;
  q_volume : Z;
  q_week52_high : option F;
  q_week52_low : option F;
  q_pe_ratio : option F;
  q_pre_market_price : option F;
  q_pre_market_change : option F;
  q_pre_market_change_pct : option F;
  q_post_market_price : option F;
  q_post_market_change : option F;
  q_post_market_change_pct : option F;
  q_updated : string
}.
Arguments q_ticker {F} _.
Arguments q_name {F} _.
Arguments q_long_name {F} _.
Arguments q_price {F} _.
Arguments q_change {F} _.
Arguments q_change_pct {F} _.
Arguments q_prev_close {F} _.
Arguments q_high {F} _.
Arguments q_low {F} _.
Arguments q_volume {F} _.
Arguments q_week52_high {F} _.
Arguments q_week52_low {F} _.
Arguments q_pe_ratio {F} _.
Arguments q_pre_market_price {F} _.
Arguments q_pre_market_change {F} _.
Arguments q_pre_market_change_pct {F} _.
Arguments q_post_market_price {F} _.
Arguments q_post_market_change {F} _.
Arguments q_post_market_change_pct {F} _.
Arguments q_updated {F} _.

(** The local variables the enrichment block assigns. *)
Record Enrichment (F : Type) : Type := {
  e_name : option string;
  e_long_name : option string;
  e_week52_high : option F;
  e_week52_low : option F;
  e_pe_ratio : option F;
  e_pre_market : option F * option F * option F;
  e_post_market : option F * option F * option F
}.
Arguments e_name {F} _.
Arguments e_long_name {F} _.
Arguments e_week52_high {F} _.
Arguments e_week52_low {F} _.
Arguments e_pe_ratio {F} _.
Arguments e_pre_market {F} _.
Arguments e_post_market {F} _.

(** [series.iloc[i]]: a negative [i] counts from the end; IndexError out of
    range. *)
Definition iloc {A} (l : list A) (i : Z) : py A :=
  let n := Z.of_nat (length l) in
  let j := if decide (i < 0) then n + i else i in
  if decide (0 <= j) then
    match l !! Z.to_nat j with
    | Some x => Ok x
    | None => Raise Exception
    end
  else Raise Exception.

Section get_quote.
Context {F : Type} `{PyFloat F}.

(** [bool(x)] for a number or [None]. *)
Definition num_truthy (x : option F) : bool :=
  match x with
  | Some v => truthy v
  | None => false
  end.

(** [a or b] on strings or [None], and on numbers or [None]. *)
Definition str_or (a b : option string) : option string :=
  match a with
  | Some s => if str_truthy s then a else b
  | None => b
  end.

Definition num_or (a b : option F) : option F :=
  if num_truthy a then a else b.

(** [round(x, 2) if x else None] *)
Definition round2_if (x : option F) : option F :=
  match x with
  | Some v => if truthy v then Some (round2 v) else None
  | None => None
  end.

(** The pre-market block and the post-market block: the price, change and
    change_pct variables, assigned when the provider's price is set and
    positive, [None] otherwise. *)
Definition extended_hours (current_price : F) (x_price : option F)
  : option F * option F * option F :=
  match x_price with
  | Some p =>
      if truthy p && gt0 p then
        (Some (round2 p),
         Some (round2 (fsub p current_price)),
         Some (round2 (fmul (fdiv (fsub p current_price) current_price)
                            (of_int 100))))
      else (None, None, None)
  | None => (None, None, None)
  end.

(** The inner [try]: the locals keep their initial values when [t.info]
    raises. *)
Definition enrich (t : Ticker F) (ticker : string) (current_price : F)
  : Enrichment F :=
  match info t with
  | Ok i =>
      let name := get_default (shortName i) ticker in
      {| e_name := name;
         e_long_name := str_or (get (longName i)) name;
         e_week52_high := get (fiftyTwoWeekHigh i);
         e_week52_low := get (fiftyTwoWeekLow i);
         e_pe_ratio := num_or (get (trailingPE i)) (get (forwardPE i));
         e_pre_market := extended_hours current_price (get (preMarketPrice i));
         e_post_market := extended_hours current_price (get (postMarketPrice i))
      |}
  | Raise _ =>
      {| e_name := Some ticker;
         e_long_name := None;
         e_week52_high := None;
         e_week52_low := None;
         e_pe_ratio := None;
         e_pre_market := (None, None, None);
         e_post_market := (None, None, None) |}
  end.

(** The body of the outer [try]. *)
Definition get_quote_body (yf : Provider F) (now ticker : string)
  : py (option (Quote F)) :=
  let t := yf ticker in
  hist ← history t;
  if decide (rows hist = []) then Ok None
  else
    last ← iloc (rows hist) (-1);
    let current_price := Close last in
    prev_close ←
      (if decide (2 <= length (rows hist))%nat
       then (b ← iloc (rows hist) (-2); Ok (Close b))
       else Ok current_price);
    let change := fsub current_price prev_close in
    let change_pct :=
      if truthy prev_close then fmul (fdiv change prev_close) (of_int 100)
      else of_int 0 in
    let e := enrich t ticker current_price in
    volume ← (if has_volume hist then to_int (Volume last) else Ok 0);
    Ok (Some
      {| q_ticker := upper ticker;
         q_name := e_name e;
         q_long_name := str_or (e_long_name e) (e_name e);
         q_price := round2 current_price;
         q_change := round2 change;
         q_change_pct := round2 change_pct;
         q_prev_close := round2 prev_close;
         q_high := round2 (High last);
         q_low := round2 (Low last);
         q_volume := volume;
         q_week52_high := round2_if (e_week52_high e);
         q_week52_low := round2_if (e_week52_low e);
         q_pe_ratio := round2_if (e_pe_ratio e);
         q_pre_market_price := (e_pre_market e).1.1;
         q_pre_market_change := (e_pre_market e).1.2;
         q_pre_market_change_pct := (e_pre_market e).2;
         q_post_market_price := (e_post_market e).1.1;
         q_post_market_change := (e_post_market e).1.2;
         q_post_market_change_pct := (e_post_market e).2;
         q_updated := now |}).

Definition get_quote (yf : Provider F) (now ticker : string)
  : py (option (Quote F)) :=
  try_except (get_quote_body yf now ticker) (Ok None).

(** [as_completed] hands the futures back in the order they finish: some
    rearrangement of the submitted ones. *)
Variable as_completed : list (py (option (Quote F)) * string)
                        → list (py (option (Quote F)) * string).

Definition collect (results : gmap string (Quote F))
    (future : py (option (Quote F)) * string) : gmap string (Quote F) :=
  match future.1 with
  | Ok (Some data) => <[upper future.2 := data]> results
  | Ok None => results
  | Raise _ => results
  end.

Definition get_bulk_quotes (yf : Provider F) (now : string)
    (tickers : list string) : py (gmap string (Quote F)) :=
  let futures := (λ t, (get_quote yf now t, t)) <$> tickers in
  Ok (fold_left collect (as_completed futures) ∅).

End get_quote.

End market_data.

(** ** Exact decimal arithmetic

    An instance of the number interface on the rationals, used to run
    [get_quote] on concrete bars: [round2] rounds to the nearest hundredth,
    ties to even; [int] truncates.  (Division by zero, which floats answer
    with an infinity, is not representative here.) *)

Module decimal.
Import market_data.

Definition q_round2 (x : Q) : Q :=
  let n := Qnum x * 100 in
  let d := Z.pos (Qden x) in
  let f := n / d in
  let r := n mod d in
  let f' := (if 2 * r <? d then f
             else if d <? 2 * r then f + 1
             else if Z.even f then f else f + 1)%Z in
  Qmake f' 100.

Definition q_truthy (x : Q) : bool := negb (Qnum x =? 0)%Z.
Definition q_gt0 (x : Q) : bool := (0 <? Qnum x)%Z.

Lemma q_gt0_truthy (x : Q) : q_gt0 x = true → q_truthy x = true.
Proof.
  unfold q_gt0, q_truthy. intros Hpos.
  apply Z.ltb_lt in Hpos. apply negb_true_iff, Z.eqb_neq. lia.
Qed.

#[global] Instance Q_PyFloat : PyFloat Q := {|
  fsub := λ a b, Qred (Qminus a b);
  fdiv := λ a b, Qred (Qdiv a b);
  fmul := λ a b, Qred (Qmult a b);
  of_int := inject_Z;
  round2 := q_round2;
  truthy := q_truthy;
  gt0 := q_gt0;
  to_int := λ x, Ok (Z.quot (Qnum x) (Z.pos (Qden x)));
  gt0_truthy := q_gt0_truthy
|}.

(** A provider to run the fetch on: two bars and an [info] for "AAPL",
    one bar and a failing [info] request for "ONE", an empty history for
    "EMPTY", an error for every other symbol. *)
Definition bar (c h l v : Q) : Bar Q :=
  {| Close := c; High := h; Low := l; Volume := v |}.

Definition sample_provider : Provider Q := λ t,
  if decide (t = "AAPL") then
    {| history :=
         Ok {| rows := [ bar (100 # 1) (101 # 1) (99 # 1) (5 # 1);
                         bar (110557 # 1000) (111 # 1) (109 # 1) (1234567 # 1) ];
               has_volume := true |};
       info :=
         Ok {| shortName := Present "Apple"; longName := JNull;
               fiftyTwoWeekHigh := Present (200 # 1);
               fiftyTwoWeekLow := Absent;
               trailingPE := Present (0 # 1);
               forwardPE := Present (31234 # 1000);
               preMarketPrice := Present (111 # 1);
               postMarketPrice := Present (0 # 1) |} |}
  else if decide (t = "ONE") then
    {| history := Ok {| rows := [ bar (5 # 2) (3 # 1) (2 # 1) (7 # 2) ];
                        has_volume := false |};
       info := Raise Exception |}
  else if decide (t = "EMPTY") then
    {| history := Ok {| rows := []; has_volume := true |};
       info := Raise Exception |}
  else {| history := Raise Exception; info := Raise Exception |}.

End decimal.

(** ** Vocabulary of the properties *)

Module props.
Import database.

Definition first_char (s : string) : option ascii :=
  match s with
  | EmptyString => None
  | String c _ => Some c
  end.

Fixpoint last_char (s : string) : option ascii :=
  match s with
  | EmptyString => None
  | String c EmptyString => Some c
  | String _ s' => last_char s'
  end.

(** Neither the first nor the last character is whitespace. *)
Definition no_surrounding_whitespace (s : string) : Prop :=
  (∀ c, first_char s = Some c → isspace c = false)
  ∧ (∀ c, last_char s = Some c → isspace c = false).

(** Every character is whitespace. *)
Fixpoint all_space (s : string) : bool :=
  match s with
  | EmptyString => true
  | String c s' => isspace c && all_space s'
  end.

(** The form in which tickers are stored. *)
Definition normalize (ticker : string) : string := strip (upper ticker).

(** The tickers of a tab, in table order. *)
Definition tickers_of (s : Store) (tab_id : Z) : list string :=
  w_ticker <$> filter (λ e, w_tab_id e = tab_id) (watchlist s).

(** The index a reordering leaves on a stored ticker: that of the last
    element of the sequence whose normal form is the ticker. *)
Fixpoint position_from (start : Z) (ticker : string) (tickers : list string)
  : option Z :=
  match tickers with
  | [] => None
  | t :: l =>
      match position_from (start + 1) ticker l with
      | Some i => Some i
      | None => if decide (normalize t = ticker) then Some start else None
      end
  end.

(** What a reordering of tab [tab_id] does to one row. *)
Definition reordered (tab_id : Z) (start : Z) (tickers : list string)
    (e : Entry) : Entry :=
  if decide (w_tab_id e = tab_id) then
    match position_from start (w_ticker e) tickers with
    | Some i => set_w_sort_order i e
    | None => e
    end
  else e.

(** [a] stands at or before [b] in [l]. *)
Definition before {A} (l : list A) (a b : A) : Prop :=
  ∃ i j : nat, l !! i = Some a ∧ l !! j = Some b ∧ (i <= j)%nat.

(** The rows of a tab, in table order. *)
Definition entries_of (s : Store) (tab_id : Z) : list Entry :=
  filter (λ e, w_tab_id e = tab_id) (watchlist s).

(** [rows] are the seed tickers of one tab, numbered from [start] in list
    order. *)
Definition seed_rows (tab_id start : Z) (seeds : list (string * string))
    (rows : list Entry) : Prop :=
  (λ e, (w_tab_id e, w_ticker e, w_name e, w_sort_order e)) <$> rows
  = (λ p, (tab_id, p.2.1, p.2.2, p.1)) <$> enumerate_from start seeds.

(** The [sort_order] values of a tab's entries. *)
Definition sort_orders_of (s : Store) (tab_id : Z) : list Z :=
  w_sort_order <$> filter (λ e, w_tab_id e = tab_id) (watchlist s).

(** [m] is the greatest element of [l]. *)
Definition is_max (m : Z) (l : list Z) : Prop :=
  m ∈ l ∧ ∀ x, x ∈ l → x <= m.

(** The store a first start leaves behind, at time 0. *)
Definition fresh_install : Store :=
  match init_db (Current empty_store) 0 with
  | Ok s => s
  | Raise _ => empty_store
  end.

Definition tab_exists (s : Store) (tab_id : Z) : Prop :=
  ∃ t, t ∈ tabs s ∧ t_id t = tab_id.

Definition pair_exists (s : Store) (tab_id : Z) (ticker : string) : Prop :=
  ∃ e, e ∈ watchlist s ∧ w_tab_id e = tab_id ∧ w_ticker e = ticker.

(** What the properties below rely on in a store: a tab exists; PRIMARY
    KEY and the AUTOINCREMENT counter of [tabs]; the FOREIGN KEY and
    UNIQUE(tab_id, ticker) of [watchlist]; tickers stored in normal form. *)
Record store_ok (s : Store) : Prop := {
  tabs_nonempty : tabs s ≠ [];
  tabs_pk : NoDup (t_id <$> tabs s);
  tabs_seq_bound : ∀ t, t ∈ tabs s → 0 < t_id t <= tabs_seq s;
  watchlist_fk : ∀ e, e ∈ watchlist s → tab_exists s (w_tab_id e);
  watchlist_unique : NoDup ((λ e, (w_tab_id e, w_ticker e)) <$> watchlist s);
  tickers_normal : ∀ e, e ∈ watchlist s → normalize (w_ticker e) = w_ticker e
}.

(** The stores the program produces: a first start on a new file, then
    any sequence of the operations and of further starts. *)
Inductive reachable : Store → Prop :=
  | reach_install now s :
      init_db (Current empty_store) now = Ok s → reachable s
  | reach_init_db s now s' :
      reachable s → init_db (Current s) now = Ok s' → reachable s'
  | reach_create_tab s name now :
      reachable s → reachable (create_tab s name now).2
  | reach_rename_tab s tab_id new_name :
      reachable s → reachable (rename_tab s tab_id new_name).2
  | reach_delete_tab s tab_id :
      reachable s → reachable (delete_tab s tab_id).2
  | reach_add_ticker s tab_id ticker name now r :
      reachable s → add_ticker s tab_id ticker name now = Ok r →
      reachable r.2
  | reach_reorder_watchlist s tab_id tickers :
      reachable s → reachable (reorder_watchlist s tab_id tickers).2
  | reach_remove_ticker s tab_id ticker :
      reachable s → reachable (remove_ticker s tab_id ticker).2.

End props.

(** ** Vocabulary of the properties of quotes *)

Module quote_props.
Import market_data.

Section vocabulary.
Context {F : Type} `{PyFloat F}.

(** The fetch of one ticker succeeded: it produced a quote. *)
Definition fetched (yf : Provider F) (now ticker : string) : Prop :=
  ∃ q, get_quote yf now ticker = Ok (Some q).

(** The close before the last one, or the last one when it stands alone. *)
Definition previous_close (bars : list (Bar F)) (current_price : F) : F :=
  match last bars with
  | Some b => Close b
  | None => current_price
  end.

(** The provider's pre-market and post-market price as the fetch sees
    them: not there when the key is missing or null, or when the request
    for [info] fails. *)
Definition pre_market (t : Ticker F) : option F :=
  match info t with
  | Ok i => get (preMarketPrice i)
  | Raise _ => None
  end.

Definition post_market (t : Ticker F) : option F :=
  match info t with
  | Ok i => get (postMarketPrice i)
  | Raise _ => None
  end.

(** Change and change in percent of an extended-hours price against the
    regular-session price. *)
Definition change_against (current_price p : F) : F := fsub p current_price.

Definition change_pct_against (current_price p : F) : F :=
  fmul (fdiv (fsub p current_price) current_price) (of_int 100).

End vocabulary.

End quote_props.

(** ** Vocabulary of the further properties of the store *)

Module store_props.
Import database props.

(** The dictionaries the two listings are made of. *)
Definition tab_dict (t : Tab) : TabDict :=
  {| d_id := t_id t; d_name := t_name t; d_sort_order := t_sort_order t |}.

Definition watch_dict (e : Entry) : WatchDict :=
  {| wd_id := w_id e; wd_tab_id := w_tab_id e;
     wd_ticker := w_ticker e; wd_name := w_name e |}.

(** The row [remove_ticker] looks for. *)
Definition hit (tab_id : Z) (ticker : string) (e : Entry) : Prop :=
  w_tab_id e = tab_id ∧ w_ticker e = normalize ticker.

(** [ORDER BY sort_order, id], read on the dictionaries of [get_tabs]. *)
Definition dict_order (a b : TabDict) : Prop :=
  d_sort_order a < d_sort_order b
  ∨ (d_sort_order a = d_sort_order b ∧ d_id a <= d_id b).

(** What a renaming does to one dictionary of the listing. *)
Definition renamed (tab_id : Z) (new_name : string) (d : TabDict) : TabDict :=
  if decide (d_id d = tab_id)
  then {| d_id := d_id d; d_name := strip new_name;
          d_sort_order := d_sort_order d |}
  else d.

(** A row of an old table as ALTER TABLE leaves it: [sort_order] 0. *)
Definition legacy_row (l : LegacyEntry) : Entry :=
  {| w_id := l_id l; w_tab_id := l_tab_id l; w_ticker := l_ticker l;
     w_name := l_name l; w_sort_order := 0; w_added_at := l_added_at l |}.

(** The counter of the back-fill loop after the rows [V]: how many of
    them belong to the tab of the last one. *)
Definition backfill_count (V : list Entry) : Z :=
  match last V with
  | Some u => Z.of_nat (length (filter (λ x, w_tab_id x = w_tab_id u) V))
  | None => 0
  end.

(** A change of rows, carried through the stack of runs the merge sort
    keeps. *)
Definition stack_fmap {A B} (f : A → B) (st : list (option (list A)))
  : list (option (list B)) :=
  (λ run : option (list A), (λ l : list A, f <$> l) <$> run) <$> st.

End store_props.

(** ** app.py: the other routes *)

Module routes.
Import database app market_data.

(** The values of the JSON objects the routes answer with. *)
Inductive json : Type :=
  | JStr (s : string)
  | JInt (z : Z).

Record Reply : Type := {
  code : Z;
  body : list (string * json)
}.

(** [GET /api/tabs] *)
Definition api_get_tabs (s : Store) : list TabDict := get_tabs s.

(** [POST /api/tabs] *)
Definition api_create_tab (s : Store) (body_name : string) (now : Z)
  : TabDict * Store :=
  create_tab s body_name now.

(** [PUT /api/tabs/{tab_id}] *)
Definition api_rename_tab (s : Store) (tab_id : Z) (body_name : string)
  : Reply * Store :=
  let '(success, s') := rename_tab s tab_id body_name in
  if success : bool then
    ({| code := 200;
        body := [ ("status", JStr "renamed"); ("id", JInt tab_id);
                  ("name", JStr body_name) ] |}, s')
  else ({| code := 404; body := [ ("status", JStr "not_found") ] |}, s').

(** [DELETE /api/tabs/{tab_id}] *)
Definition api_delete_tab (s : Store) (tab_id : Z) : Reply * Store :=
  let '(success, s') := delete_tab s tab_id in
  if success : bool then
    ({| code := 200;
        body := [ ("status", JStr "deleted"); ("id", JInt tab_id) ] |}, s')
  else
    ({| code := 400;
        body := [ ("status", JStr "failed");
                  ("message", JStr "Cannot delete the last tab") ] |}, s').

(** [GET /api/watchlist/{tab_id}] *)
Definition api_get_watchlist (s : Store) (tab_id : Z) : list WatchDict :=
  get_watchlist s tab_id.

(** [PUT /api/watchlist/{tab_id}/reorder] *)
Definition api_reorder_watchlist (s : Store) (tab_id : Z)
    (body_tickers : list string) : Reply * Store :=
  let '(success, s') := reorder_watchlist s tab_id body_tickers in
  if success : bool then
    ({| code := 200;
        body := [ ("status", JStr "reordered"); ("tab_id", JInt tab_id) ] |},
     s')
  else ({| code := 400; body := [ ("status", JStr "failed") ] |}, s').

(** [DELETE /api/watchlist/{tab_id}/{ticker}] *)
Definition api_remove_from_watchlist (s : Store) (tab_id : Z)
    (ticker : string) : Reply * Store :=
  let '(success, s') := remove_ticker s tab_id (upper ticker) in
  if success : bool then
    ({| code := 200;
        body := [ ("status", JStr "removed");
                  ("ticker", JStr (upper ticker)) ] |}, s')
  else
    ({| code := 404;
        body := [ ("status", JStr "not_found");
                  ("message", JStr (upper ticker +:+ " not in this list")) ] |},
     s').

(** [tabs[0]]: IndexError on an empty list. *)
Definition first_of {A} (l : list A) : py A :=
  match l with
  | x :: _ => Ok x
  | [] => Raise Exception
  end.

Section quote_routes.
Context {F : Type} `{PyFloat F}.
Variable as_completed : list (py (option (Quote F)) * string)
                        → list (py (option (Quote F)) * string).

(** [get_bulk_quotes(tickers) if tickers else {}] *)
Definition quotes_of (yf : Provider F) (now : string) (tickers : list string)
  : py (gmap string (Quote F)) :=
  if decide (tickers = []) then Ok ∅
  else get_bulk_quotes as_completed yf now tickers.



(** What the page handler hands to the template. *)
Record Context : Type := {
  c_tabs : list TabDict;
  c_active_tab_id : Z;
  c_watchlist : list WatchDict;
  c_quotes : gmap string (Quote F)
}.

(** [GET /]; [now] is the time of the call, for the seeding and for the
    quotes. *)
Definition dashboard (yf : Provider F) (now : string) (today : Z)
    (s : Store) (tab : Z) : py (Context * Store) :=
  let tabs := get_tabs s in
  st ← (if decide (tabs = []) then
          s' ← init_db (Current s) today; Ok (s', get_tabs s')
        else Ok (s, tabs));
  let s := st.1 in
  let tabs := st.2 in
  active_tab_id ←
    (if decide (0 < tab) then Ok tab
     else t ← first_of tabs; Ok (d_id t));
  fallback ← first_of tabs;
  let active_tab :=
    default fallback (head (filter (λ t, d_id t = active_tab_id) tabs)) in
  let active_tab_id := d_id active_tab in
  let watchlist := get_watchlist s active_tab_id in
  let tickers := wd_ticker <$> watchlist in
  quotes ← quotes_of yf now tickers;
  Ok ({| c_tabs := tabs; c_active_tab_id := active_tab_id;
         c_watchlist := watchlist; c_quotes := quotes |}, s).

End quote_routes.

End routes.

(** ** market_data.py: chart data *)

Module charts.
Import market_data.

Section get_chart_data.
Context {F : Type} `{PyFloat F}.

(** One row of the frame [t.history(...)] returns for a chart: the index
    as [idx.timestamp()] gives it, and the columns. *)
Record Candle : Type := {
  k_timestamp : F;
  k_Open : F;
  k_High : F;
  k_Low : F;
  k_Close : F;
  k_Volume : F
}.

Record ChartFrame : Type := {
  candles : list Candle;
  with_volume : bool
}.

(** The keyword arguments of the [t.history] call. *)
Record HistoryArgs : Type := {
  a_period : option string;
  a_start : option string;
  a_interval : string;
  a_prepost : bool
}.

Definition ChartProvider : Type := string → HistoryArgs → py ChartFrame.

(** One element of the list [get_chart_data] returns. *)
Record Point : Type := {
  p_time : Z;
  p_open : F;
  p_high : F;
  p_low : F;
  p_close : F;
  p_volume : Z
}.

Definition intraday : list string :=
  ["1m"; "2m"; "5m"; "15m"; "30m"; "60m"; "90m"; "1h"].

(** The body of the loop: the dictionary of one row. *)
Definition point (hist : ChartFrame) (row : Candle) : py Point :=
  ts ← to_int (k_timestamp row);
  volume ← (if with_volume hist then to_int (k_Volume row) else Ok 0);
  Ok {| p_time := ts;
        p_open := round2 (k_Open row);
        p_high := round2 (k_High row);
        p_low := round2 (k_Low row);
        p_close := round2 (k_Close row);
        p_volume := volume |}.

(** [for idx, row in hist.iterrows(): data.append(...)] *)
Fixpoint iterrows (hist : ChartFrame) (rows : list Candle) (data : list Point)
  : py (list Point) :=
  match rows with
  | [] => Ok data
  | row :: rows =>
      p ← point hist row;
      iterrows hist rows (data ++ [p])
  end.

(** The body of the [try]; [start] is the day 3650 days before the call,
    as [%Y-%m-%d]. *)
Definition get_chart_data_body (yf : ChartProvider) (start : string)
    (ticker period interval : string) : py (list Point) :=
  let include_prepost := bool_decide (interval ∈ intraday) in
  hist ← (if decide (period = "10y") then
            yf ticker {| a_period := None; a_start := Some start;
                         a_interval := interval;
                         a_prepost := include_prepost |}
          else
            yf ticker {| a_period := Some period; a_start := None;
                         a_interval := interval;
                         a_prepost := include_prepost |});
  if decide (candles hist = []) then Ok []
  else iterrows hist (candles hist) [].

Definition get_chart_data (yf : ChartProvider) (start : string)
    (ticker period interval : string) : py (list Point) :=
  try_except (get_chart_data_body yf start ticker period interval) (Ok []).

(** [GET /api/chart/{ticker}] *)
Definition api_chart (yf : ChartProvider) (start : string)
    (ticker period interval : string) : py (list Point) :=
  get_chart_data yf start (upper ticker) period interval.

End get_chart_data.

Arguments Candle F : clear implicits.
Arguments ChartFrame F : clear implicits.
Arguments Point F : clear implicits.
Arguments ChartProvider F : clear implicits.

(** The request [get_chart_data] sends for a period and an interval. *)
Definition chart_request (start period interval : string) : HistoryArgs :=
  {| a_period := if decide (period = "10y") then None else Some period;
     a_start := if decide (period = "10y") then Some start else None;
     a_interval := interval;
     a_prepost := bool_decide (interval ∈ intraday) |}.

(** A row yields the point [p]. *)
Definition point_of {F : Type} `{PyFloat F} (hist : ChartFrame F)
    (row : Candle F) (p : Point F) : Prop :=
  to_int (k_timestamp row) = Ok (p_time p)
  ∧ p_open p = round2 (k_Open row)
  ∧ p_high p = round2 (k_High row)
  ∧ p_low p = round2 (k_Low row)
  ∧ p_close p = round2 (k_Close row)
  ∧ (if with_volume hist then to_int (k_Volume row) = Ok (p_volume p)
     else p_volume p = 0).

(** A row whose timestamp or volume does not convert to an integer. *)
Definition unconvertible {F : Type} `{PyFloat F} (hist : ChartFrame F)
    (row : Candle F) : Prop :=
  (∃ e, to_int (k_timestamp row) = Raise e)
  ∨ (with_volume hist = true ∧ ∃ e, to_int (k_Volume row) = Raise e).

End charts.

(** ** Vocabulary of the properties of the routes *)

Module route_props.
Import database market_data.


(** A tab of the listing has the id. *)
Definition listed (tabs : list TabDict) (tab_id : Z) : Prop :=
  ∃ t, t ∈ tabs ∧ d_id t = tab_id.

End route_props.

(** * Properties *)

(** ** Strings *)

Section strings.
Import props.

Lemma isspace_upper_char (c : ascii) : isspace (upper_char c) = isspace c.
Proof. destruct c as [[] [] [] [] [] [] [] []]; reflexivity. Qed.

Lemma upper_char_idem (c : ascii) : upper_char (upper_char c) = upper_char c.
Proof. destruct c as [[] [] [] [] [] [] [] []]; reflexivity. Qed.

Lemma upper_idem (s : string) : upper (upper s) = upper s.
Proof.
  induction s as [|c s IH]; simpl; [reflexivity|].
  by rewrite upper_char_idem, IH.
Qed.

Lemma upper_lstrip (s : string) : upper (lstrip s) = lstrip (upper s).
Proof.
  induction s as [|c s IH]; simpl; [reflexivity|].
  rewrite isspace_upper_char. by destruct (isspace c).
Qed.

Lemma upper_rstrip (s : string) : upper (rstrip s) = rstrip (upper s).
Proof.
  induction s as [|c s IH]; simpl; [reflexivity|].
  rewrite <- IH, isspace_upper_char.
  destruct (rstrip s); simpl; [by destruct (isspace c)|reflexivity].
Qed.

Lemma upper_strip (s : string) : upper (strip s) = strip (upper s).
Proof. unfold strip. by rewrite upper_lstrip, upper_rstrip. Qed.

Lemma lstrip_first (s : string) (c : ascii) :
  first_char (lstrip s) = Some c → isspace c = false.
Proof.
  induction s as [|c0 s IH]; simpl; [done|].
  destruct (isspace c0) eqn:Hc0; [done|].
  simpl. by intros [= <-].
Qed.

Lemma lstrip_last (s : string) (c : ascii) :
  last_char (lstrip s) = Some c → last_char s = Some c.
Proof.
  induction s as [|c0 s IH]; simpl; [done|].
  destruct (isspace c0); [|done].
  intros Hl. specialize (IH Hl). by destruct s.
Qed.

Lemma rstrip_last (s : string) (c : ascii) :
  last_char (rstrip s) = Some c → isspace c = false.
Proof.
  induction s as [|c0 s IH]; simpl; [done|].
  destruct (rstrip s) as [|c1 r] eqn:Hr.
  - destruct (isspace c0) eqn:Hc0; simpl; [done|]. by intros [= <-].
  - done.
Qed.

Lemma lstrip_fixed (s : string) :
  (∀ c, first_char s = Some c → isspace c = false) → lstrip s = s.
Proof.
  destruct s as [|c s]; simpl; [done|].
  intros Hc. by rewrite (Hc c eq_refl).
Qed.

Lemma rstrip_fixed (s : string) :
  (∀ c, last_char s = Some c → isspace c = false) → rstrip s = s.
Proof.
  induction s as [|c s IH]; simpl; [done|].
  intros Hc. destruct s as [|c1 s].
  - simpl. by rewrite (Hc c eq_refl).
  - rewrite IH by done. done.
Qed.

Lemma strip_no_surrounding_whitespace (s : string) :
  no_surrounding_whitespace (strip s).
Proof.
  split; intros c Hc.
  - by apply (lstrip_first (rstrip s)).
  - by apply (rstrip_last s), lstrip_last.
Qed.

Lemma strip_fixed (s : string) : no_surrounding_whitespace s → strip s = s.
Proof.
  intros [Hf Hl]. unfold strip. rewrite (rstrip_fixed s Hl). by apply lstrip_fixed.
Qed.

Lemma strip_idem (s : string) : strip (strip s) = strip s.
Proof. apply strip_fixed, strip_no_surrounding_whitespace. Qed.

Lemma normalize_idem (t : string) : normalize (normalize t) = normalize t.
Proof.
  unfold normalize. by rewrite upper_strip, upper_idem, strip_idem.
Qed.

Lemma lstrip_empty (s : string) : lstrip s = "" ↔ all_space s = true.
Proof.
  induction s as [|c s IH]; simpl; [done|].
  destruct (isspace c); simpl; [done|]. split; done.
Qed.

Lemma rstrip_empty (s : string) : rstrip s = "" ↔ all_space s = true.
Proof.
  induction s as [|c s IH]; simpl; [done|].
  destruct (rstrip s) as [|c1 r].
  - destruct (isspace c); simpl; [tauto|]. split; done.
  - split; [done|]. intros [_ Hs]%andb_true_iff. by apply IH in Hs.
Qed.

Lemma all_space_fixed (s : string) :
  all_space s = true → (∀ c, last_char s = Some c → isspace c = false) → s = "".
Proof.
  induction s as [|c s IH]; simpl; [done|].
  intros [Hc Hs]%andb_true_iff Hl. destruct s as [|c1 s].
  - rewrite (Hl c eq_refl) in Hc. done.
  - specialize (IH Hs Hl). done.
Qed.

Lemma strip_empty (s : string) : strip s = "" ↔ all_space s = true.
Proof.
  unfold strip. rewrite lstrip_empty. split.
  - intros Hr. apply rstrip_empty, all_space_fixed; [done|]. apply rstrip_last.
  - intros Hs. apply rstrip_empty in Hs. by rewrite Hs.
Qed.

End strings.

(** ** SQL building blocks *)

Section sql.
Import database props.

Lemma fold_left_max_le (l : list Z) (a x : Z) :
  x <= a ∨ x ∈ l → x <= fold_left Z.max l a.
Proof.
  revert a. induction l as [|y l IH]; intros a [Hx|Hx]; simpl.
  - done.
  - by apply elem_of_nil in Hx.
  - apply IH. left. lia.
  - apply elem_of_cons in Hx as [->|Hx].
    + apply IH. left. lia.
    + apply IH. by right.
Qed.

Lemma fold_left_max_elem (l : list Z) (a : Z) :
  fold_left Z.max l a = a ∨ fold_left Z.max l a ∈ l.
Proof.
  revert a. induction l as [|y l IH]; intros a; simpl; [by left|].
  destruct (IH (Z.max a y)) as [Heq|Hin].
  - rewrite Heq. destruct (Z.max_spec a y) as [[_ ->]|[_ ->]].
    + right. by left.
    + by left.
  - right. by right.
Qed.

(** [MAX] is NULL over no rows and the greatest value otherwise. *)
Lemma sql_max_spec (l : list Z) :
  match sql_max l with
  | None => l = []
  | Some m => m ∈ l ∧ ∀ x, x ∈ l → x <= m
  end.
Proof.
  destruct l as [|a l]; simpl; [done|]. split.
  - destruct (fold_left_max_elem l a) as [->|Hin]; [by left|by right].
  - intros x Hx. apply fold_left_max_le.
    apply elem_of_cons in Hx as [->|Hx]; [left; lia|by right].
Qed.

Lemma fk_violation_spec (s : Store) (tab_id : Z) :
  fk_violation s tab_id = true ↔ ¬ tab_exists s tab_id.
Proof.
  unfold fk_violation, tab_exists.
  rewrite bool_decide_eq_true, Forall_forall. split.
  - intros Hall (t & Ht & Hid). by apply (Hall t).
  - intros Hno t Ht Hid. apply Hno. by exists t.
Qed.

Lemma fk_violation_false (s : Store) (tab_id : Z) :
  fk_violation s tab_id = false ↔ tab_exists s tab_id.
Proof.
  unfold fk_violation, tab_exists.
  rewrite bool_decide_eq_false. split.
  - intros Hex%not_Forall_Exists; [|apply _].
    apply Exists_exists in Hex as (t & Ht & Hid).
    exists t. split; [done|]. simpl in Hid. by destruct (decide (t_id t = tab_id)).
  - intros (t & Ht & Hid) Hall. rewrite Forall_forall in Hall. by apply (Hall t).
Qed.

Lemma unique_violation_spec (s : Store) (tab_id : Z) (ticker : string) :
  unique_violation s tab_id ticker = true ↔ pair_exists s tab_id ticker.
Proof.
  unfold unique_violation, pair_exists.
  rewrite bool_decide_eq_true, Exists_exists. done.
Qed.

(** The three outcomes of the plain INSERT. *)
Lemma insert_watchlist_cases (s : Store) (tab_id : Z) (ticker name : string)
    (sort_order now : Z) :
  (insert_watchlist s tab_id ticker name sort_order now = Raise IntegrityError
   ∧ (pair_exists s tab_id ticker ∨ ¬ tab_exists s tab_id))
  ∨ (insert_watchlist s tab_id ticker name sort_order now
       = Ok (append_watchlist s tab_id ticker name sort_order now)
     ∧ ¬ pair_exists s tab_id ticker ∧ tab_exists s tab_id).
Proof.
  unfold insert_watchlist.
  destruct (unique_violation s tab_id ticker) eqn:Hu; simpl.
  { left. split; [done|]. left. by apply unique_violation_spec. }
  destruct (fk_violation s tab_id) eqn:Hf.
  { left. split; [done|]. right. by apply fk_violation_spec. }
  right. split; [done|]. split.
  - rewrite <- unique_violation_spec. by rewrite Hu.
  - by apply fk_violation_false.
Qed.

End sql.

(** ** Tabs *)

Section tab_operations.
Import database props.

Lemma filter_all {A} (P : A → Prop) `{!∀ x, Decision (P x)} (l : list A) :
  Forall P l → filter P l = l.
Proof.
  induction 1 as [|x l Hx Hl IH]; [done|].
  by rewrite filter_cons_True, IH.
Qed.

Lemma filter_none {A} (P : A → Prop) `{!∀ x, Decision (P x)} (l : list A) :
  Forall (λ x, ¬ P x) l → filter P l = [].
Proof.
  induction 1 as [|x l Hx Hl IH]; [done|].
  by rewrite filter_cons_False.
Qed.

Lemma filter_ne_length {A} (f : A → Z) (a : Z) (l : list A) :
  NoDup (f <$> l) → (length l <= S (length (filter (λ x, f x ≠ a) l)))%nat.
Proof.
  induction l as [|x l IH]; csimpl; [lia|].
  rewrite NoDup_cons. intros [Hx Hl].
  rewrite filter_cons. destruct (decide (f x ≠ a)) as [Hne|Heq]; simpl.
  - specialize (IH Hl). lia.
  - apply dec_stable in Heq.
    rewrite filter_all; [lia|]. apply Forall_forall. intros y Hy Hfy.
    apply Hx. rewrite Heq, <- Hfy. by apply list_elem_of_fmap_2.
Qed.

Lemma delete_tab_last (s : Store) (tab_id : Z) :
  length (tabs s) = 1%nat → delete_tab s tab_id = (false, s).
Proof. intros Hone. unfold delete_tab. by rewrite decide_True by lia. Qed.

Lemma delete_tab_many (s : Store) (tab_id : Z) :
  (2 <= length (tabs s))%nat → tab_exists s tab_id →
  delete_tab s tab_id =
    (true, {| tabs := filter (λ t, t_id t ≠ tab_id) (tabs s);
              watchlist := filter (λ e, w_tab_id e ≠ tab_id) (watchlist s);
              tabs_seq := tabs_seq s;
              watchlist_seq := watchlist_seq s |}).
Proof.
  intros Hmany (t & Ht & Hid). unfold delete_tab, delete_from_tabs.
  rewrite decide_False by lia.
  assert (t ∈ filter (λ t, t_id t = tab_id) (tabs s)) as Hin
    by by apply list_elem_of_filter.
  destruct (filter (λ t, t_id t = tab_id) (tabs s)) as [|t0 l] eqn:Hf.
  { by apply elem_of_nil in Hin. }
  reflexivity.
Qed.

Lemma create_tab_row (s : Store) (name : string) (now : Z) :
  let max_order := COALESCE (sql_max (t_sort_order <$> tabs s)) 0 in
  let rowid := next_rowid (tabs_seq s) (t_id <$> tabs s) in
  create_tab s name now =
    ({| d_id := rowid; d_name := strip name; d_sort_order := max_order + 1 |},
     {| tabs := tabs s ++ [ {| t_id := rowid; t_name := strip name;
                               t_sort_order := max_order + 1;
                               t_created_at := now |} ];
        watchlist := watchlist s;
        tabs_seq := rowid;
        watchlist_seq := watchlist_seq s |}).
Proof. reflexivity. Qed.

(** With tabs in the store, the new tab is placed after the greatest
    [sort_order]. *)
Lemma create_tab_sort_order (s : Store) (name : string) (now : Z) (m : Z) :
  is_max m (t_sort_order <$> tabs s) →
  d_sort_order (create_tab s name now).1 = m + 1.
Proof.
  intros [Hin Hmax]. rewrite create_tab_row. simpl.
  pose proof (sql_max_spec (t_sort_order <$> tabs s)) as Hspec.
  destruct (sql_max (t_sort_order <$> tabs s)) as [m'|]; simpl.
  - destruct Hspec as [Hin' Hmax']. specialize (Hmax _ Hin'). specialize (Hmax' _ Hin). lia.
  - rewrite Hspec in Hin. by apply elem_of_nil in Hin.
Qed.

(** In a store without tabs the new tab gets [sort_order] 1. *)
Lemma create_tab_first (s : Store) (name : string) (now : Z) :
  tabs s = [] → d_sort_order (create_tab s name now).1 = 1.
Proof. intros Hempty. rewrite create_tab_row. simpl. by rewrite Hempty. Qed.

(** C2, on the code. [create_tab] stores the trimmed name, and in a store
    with tabs the new [sort_order] is one more than the greatest.  In a
    store without tabs [COALESCE(MAX(sort_order), 0)] is 0, so the first
    tab gets [sort_order] 1: creating "A", "B", "C" in the empty store
    numbers them 1, 2, 3 (not 0, 1, 2); [get_tabs] lists them in creation
    order. *)
Theorem create_tab_in_empty_store (n1 n2 n3 : Z) :
  let r1 := create_tab empty_store "A" n1 in
  let r2 := create_tab r1.2 "B" n2 in
  let r3 := create_tab r2.2 "C" n3 in
  d_sort_order r1.1 = 1 ∧ d_sort_order r2.1 = 2 ∧ d_sort_order r3.1 = 3
  ∧ d_name <$> get_tabs r3.2 = ["A"; "B"; "C"]
  ∧ (∀ s name now,
       d_name (create_tab s name now).1 = strip name
       ∧ (tabs s = [] → d_sort_order (create_tab s name now).1 = 1)
       ∧ (∀ m, is_max m (t_sort_order <$> tabs s) →
            d_sort_order (create_tab s name now).1 = m + 1)).
Proof.
  do 4 (split; [by vm_compute|]).
  intros s name now. split; [done|]. split.
  - apply create_tab_first.
  - intros m. apply create_tab_sort_order.
Qed.

Lemma rename_tab_names (s : Store) (tab_id : Z) (new_name : string) (t' : Tab) :
  t' ∈ tabs (rename_tab s tab_id new_name).2 →
  (t_id t' = tab_id ∧ t_name t' = strip new_name)
  ∨ (t_id t' ≠ tab_id ∧ t' ∈ tabs s).
Proof.
  simpl. intros (t & -> & Ht)%list_elem_of_fmap.
  destruct (decide (t_id t = tab_id)) as [Hid|Hid]; [left|right]; done.
Qed.

(** C9, as the code has it. [create_tab] and [rename_tab] store the
    trimmed name, which has no whitespace at either end; it is empty
    exactly when the given name holds nothing but whitespace. *)
Theorem tab_names_are_trimmed (s : Store) (tab_id : Z) (name : string) (now : Z) :
  (∃ t, tabs (create_tab s name now).2 = (tabs s ++ [t])%list
        ∧ t_name t = strip name)
  ∧ (∀ t', t' ∈ tabs (rename_tab s tab_id name).2 → t_id t' = tab_id →
       t_name t' = strip name)
  ∧ no_surrounding_whitespace (strip name)
  ∧ (strip name = "" ↔ all_space name = true).
Proof.
  split; [|split; [|split]].
  - rewrite create_tab_row. simpl. eexists. split; [reflexivity|done].
  - intros t' Ht' Hid. apply rename_tab_names in Ht' as [[_ Hn]|[Hne _]]; done.
  - apply strip_no_surrounding_whitespace.
  - apply strip_empty.
Qed.

(** C9 as stated fails: a name of blanks is stored as the empty name, by
    [create_tab] and by [rename_tab]. *)
Lemma blank_tab_name_is_stored_empty :
  t_name <$> tabs (create_tab empty_store "   " 0).2 = [""]
  ∧ t_name <$> tabs (rename_tab (create_tab empty_store "Main" 0).2 1 " ").2 = [""].
Proof. split; by vm_compute. Qed.

End tab_operations.

(** ** Adding a ticker *)

Section add_ticker_facts.
Import database props app.

(** The two ways [add_ticker] ends: the insert is refused and nothing
    changes, or one row is appended. *)
Lemma add_ticker_cases (s : Store) (tab_id : Z) (ticker name : string) (now : Z) :
  let max_order := COALESCE (sql_max (sort_orders_of s tab_id)) (-1) in
  (add_ticker s tab_id ticker name now = Ok (false, s)
   ∧ (pair_exists s tab_id (normalize ticker) ∨ ¬ tab_exists s tab_id))
  ∨ (add_ticker s tab_id ticker name now
       = Ok (true, append_watchlist s tab_id (normalize ticker) name
                     (max_order + 1) now)
     ∧ ¬ pair_exists s tab_id (normalize ticker) ∧ tab_exists s tab_id).
Proof.
  intros max_order. unfold add_ticker. fold (sort_orders_of s tab_id).
  fold (normalize ticker). fold max_order.
  destruct (insert_watchlist_cases s tab_id (normalize ticker) name
              (max_order + 1) now) as [[-> Hwhy]|[-> Hwhy]]; [left|right]; done.
Qed.

Lemma append_watchlist_pair (s : Store) (tab_id : Z) (ticker name : string)
    (sort_order now : Z) :
  pair_exists (append_watchlist s tab_id ticker name sort_order now) tab_id ticker.
Proof.
  eexists. split; [apply elem_of_app; right; apply list_elem_of_singleton; reflexivity|].
  done.
Qed.

(** A second insert of a ticker with the same stored form is refused. *)
Lemma add_ticker_twice (s : Store) (tab_id : Z) (t1 t2 n1 n2 : string)
    (now1 now2 : Z) :
  normalize t1 = normalize t2 →
  ∃ ok s1, add_ticker s tab_id t1 n1 now1 = Ok (ok, s1)
    ∧ add_ticker s1 tab_id t2 n2 now2 = Ok (false, s1).
Proof.
  intros Hsame.
  destruct (add_ticker_cases s tab_id t1 n1 now1) as [[Hr Hwhy]|[Hr Hwhy]].
  - exists false, s. split; [done|].
    destruct (add_ticker_cases s tab_id t2 n2 now2) as [[Hr2 _]|[_ [Hno Hex]]]; [done|].
    rewrite <- Hsame in Hno. by destruct Hwhy.
  - eexists true, _. split; [done|].
    match goal with |- add_ticker ?s1 _ _ _ _ = _ =>
      destruct (add_ticker_cases s1 tab_id t2 n2 now2) as [[Hr2 _]|[_ [Hno _]]]
    end; [done|].
    exfalso. apply Hno. rewrite <- Hsame. apply append_watchlist_pair.
Qed.

(** C3, as the code has it. [add_ticker] never raises. It returns false,
    changing nothing, exactly when the tab already holds the upper-cased,
    trimmed ticker or no tab has the given id; otherwise it returns true and
    appends one entry for that tab with the normalized ticker, the given
    name, and a [sort_order] of 0 in an empty watchlist and one more than
    the greatest [sort_order] of the tab otherwise.  Adding "aapl" and then
    "AAPL" to a tab, the second call returns false. *)
Theorem add_ticker_behaviour (s : Store) (tab_id : Z) (ticker name : string)
    (now : Z) :
  (∃ ok s', add_ticker s tab_id ticker name now = Ok (ok, s')
     ∧ (ok = false ↔
          pair_exists s tab_id (normalize ticker) ∨ ¬ tab_exists s tab_id)
     ∧ (ok = false → s' = s)
     ∧ (ok = true →
          ∃ e, watchlist s' = (watchlist s ++ [e])%list ∧ tabs s' = tabs s
            ∧ w_tab_id e = tab_id ∧ w_ticker e = normalize ticker
            ∧ w_name e = name
            ∧ (sort_orders_of s tab_id = [] → w_sort_order e = 0)
            ∧ (∀ m, is_max m (sort_orders_of s tab_id) →
                 w_sort_order e = m + 1)))
  ∧ (∀ n1 n2 now1 now2,
       ∃ ok s1, add_ticker s tab_id "aapl" n1 now1 = Ok (ok, s1)
         ∧ add_ticker s1 tab_id "AAPL" n2 now2 = Ok (false, s1)).
Proof.
  split; [|intros; by apply add_ticker_twice].
  destruct (add_ticker_cases s tab_id ticker name now) as [[Hr Hwhy]|[Hr [Hno Hex]]].
  - exists false, s. split; [done|]. split; [done|]. split; done.
  - eexists true, _. split; [done|]. split.
    { split; [done|]. intros [?|?]; done. }
    split; [done|]. intros _. eexists. split; [reflexivity|]. simpl.
    do 4 (split; [done|]).
    pose proof (sql_max_spec (sort_orders_of s tab_id)) as Hspec.
    split.
    + intros Hnil. by rewrite Hnil.
    + intros m [Hin Hmax].
      destruct (sql_max (sort_orders_of s tab_id)) as [m'|]; simpl.
      * destruct Hspec as [Hin' Hmax'].
        specialize (Hmax _ Hin'). specialize (Hmax' _ Hin). lia.
      * rewrite Hspec in Hin. by apply elem_of_nil in Hin.
Qed.

(** C3 as stated fails: for an id no tab has, [add_ticker] returns false
    although the pair is not in the watchlist. *)
Lemma add_ticker_false_without_pair :
  add_ticker fresh_install 99 "AAPL" "" 0 = Ok (false, fresh_install)
  ∧ ¬ pair_exists fresh_install 99 (normalize "AAPL").
Proof.
  split; [by vm_compute|].
  rewrite <- unique_violation_spec. by vm_compute.
Qed.

(** C10. For an id no tab has, [add_ticker] returns false without raising
    and leaves the store as it was, and the route answers 409 with the
    message of a duplicate ticker. *)
Theorem add_ticker_unknown_tab (s : Store) (tab_id : Z) (ticker name : string)
    (now : Z) :
  ¬ tab_exists s tab_id →
  add_ticker s tab_id ticker name now = Ok (false, s)
  ∧ api_add_to_watchlist s tab_id ticker name now =
      Ok ({| status_code := 409;
             content := [ ("status", "exists");
                          ("message", upper ticker +:+ " already in this list") ] |},
          s).
Proof.
  intros Hno. split.
  - destruct (add_ticker_cases s tab_id ticker name now) as [[Hr _]|[_ [_ Hex]]]; done.
  - unfold api_add_to_watchlist.
    destruct (add_ticker_cases s tab_id (upper ticker) name now)
      as [[-> _]|[_ [_ Hex]]]; done.
Qed.

Lemma add_ticker_unknown_tab_witness :
  ¬ tab_exists fresh_install 99
  ∧ add_ticker fresh_install 99 "msft" "" 0 = Ok (false, fresh_install)
  ∧ api_add_to_watchlist fresh_install 99 "msft" "" 0 =
      Ok ({| status_code := 409;
             content := [ ("status", "exists");
                          ("message", "MSFT already in this list") ] |},
          fresh_install).
Proof.
  assert (¬ tab_exists fresh_install 99) as Hno.
  { apply fk_violation_spec. by vm_compute. }
  split; [done|]. apply (add_ticker_unknown_tab fresh_install 99 "msft" "" 0 Hno).
Defined.

End add_ticker_facts.

(** ** Reordering a watchlist *)

Section reorder_facts.
Import database props.

(** The loop of UPDATE statements amounts to one pass over the table. *)
Lemma reorder_loop (tab_id start : Z) (tickers : list string) (w : list Entry) :
  fold_left (λ w it, update_sort_order tab_id (strip (upper it.2)) it.1 w)
            (enumerate_from start tickers) w
  = reordered tab_id start tickers <$> w.
Proof.
  revert start w. induction tickers as [|t l IH]; intros start w; simpl.
  - unfold reordered. simpl. induction w as [|e w IHw]; csimpl; [done|].
    rewrite <- IHw. by destruct (decide (w_tab_id e = tab_id)).
  - rewrite IH. unfold update_sort_order. rewrite <- list_fmap_compose.
    apply list_fmap_ext. intros _ e _. simpl. unfold reordered. simpl.
    fold (normalize t).
    destruct (decide (w_tab_id e = tab_id ∧ w_ticker e = normalize t))
      as [[Htab Htk]|Hno]; simpl.
    + rewrite !(decide_True (P := w_tab_id e = tab_id)) by done.
      rewrite (decide_True (P := normalize t = w_ticker e)) by done.
      by destruct (position_from (start + 1) (w_ticker e) l).
    + destruct (decide (w_tab_id e = tab_id)) as [Htab|]; [|done].
      rewrite decide_False by (intros Heq; apply Hno; done).
      by destruct (position_from (start + 1) (w_ticker e) l).
Qed.

Lemma reorder_watchlist_rows (s : Store) (tab_id : Z) (tickers : list string) :
  reorder_watchlist s tab_id tickers =
    (true, {| tabs := tabs s;
              watchlist := reordered tab_id 0 tickers <$> watchlist s;
              tabs_seq := tabs_seq s;
              watchlist_seq := watchlist_seq s |}).
Proof. unfold reorder_watchlist, enumerate. by rewrite reorder_loop. Qed.

Lemma position_from_none (start : Z) (ticker : string) (l : list string) :
  (∀ t, t ∈ l → normalize t ≠ ticker) → position_from start ticker l = None.
Proof.
  revert start. induction l as [|t l IH]; intros start Hno; simpl; [done|].
  rewrite IH by (intros t' Ht'; apply Hno; by right).
  rewrite decide_False; [done|]. apply Hno. by left.
Qed.

Lemma position_from_last (start : Z) (l : list string) (k : nat) (t : string) :
  l !! k = Some t →
  (∀ j t', (k < j)%nat → l !! j = Some t' → normalize t' ≠ normalize t) →
  position_from start (normalize t) l = Some (start + Z.of_nat k).
Proof.
  revert start k. induction l as [|t0 l IH]; intros start k Hk Hlater; [done|].
  simpl. destruct k as [|k]; simpl in Hk.
  - injection Hk as ->. rewrite position_from_none.
    + rewrite decide_True by done. f_equal. lia.
    + intros t' [j Hj]%list_elem_of_lookup. apply (Hlater (S j)); [lia|done].
  - rewrite (IH (start + 1) k Hk).
    + f_equal. lia.
    + intros j t' Hj Ht'. apply (Hlater (S j)); [lia|done].
Qed.

Lemma reordered_fields (tab_id start : Z) (tickers : list string) (e : Entry) :
  w_tab_id (reordered tab_id start tickers e) = w_tab_id e
  ∧ w_ticker (reordered tab_id start tickers e) = w_ticker e
  ∧ w_id (reordered tab_id start tickers e) = w_id e.
Proof.
  unfold reordered. destruct (decide (w_tab_id e = tab_id)); [|done].
  by destruct (position_from start (w_ticker e) tickers).
Qed.

Lemma filter_reordered (tab_id tab' : Z) (tickers : list string) (w : list Entry) :
  filter (λ e, w_tab_id e = tab') (reordered tab_id 0 tickers <$> w)
  = reordered tab_id 0 tickers <$> filter (λ e, w_tab_id e = tab') w.
Proof.
  induction w as [|e w IH]; csimpl; [done|].
  rewrite !filter_cons, (proj1 (reordered_fields tab_id 0 tickers e)).
  destruct (decide (w_tab_id e = tab')); csimpl; by rewrite IH.
Qed.

Lemma tickers_of_reorder (s : Store) (tab_id tab' : Z) (tickers : list string) :
  tickers_of (reorder_watchlist s tab_id tickers).2 tab' = tickers_of s tab'.
Proof.
  rewrite reorder_watchlist_rows. unfold tickers_of. simpl.
  rewrite filter_reordered, <- list_fmap_compose.
  apply list_fmap_ext. intros _ e _. simpl. apply reordered_fields.
Qed.

End reorder_facts.

(** ** Listing a reordered watchlist *)

Section listing_facts.
Import database props.

#[local] Instance watchlist_order_trans : Transitive watchlist_order.
Proof. intros a b c. unfold watchlist_order. lia. Qed.

#[local] Instance watchlist_order_total : Total watchlist_order.
Proof. intros a b. unfold watchlist_order. lia. Qed.

Lemma StronglySorted_elem_impl {A} (R R' : relation A) (l : list A) :
  (∀ x y, x ∈ l → y ∈ l → R x y → R' x y) →
  StronglySorted R l → StronglySorted R' l.
Proof.
  intros Himpl Hsorted. induction Hsorted as [|x l Hl IH Hx]; constructor.
  - apply IH. intros a b Ha Hb. apply Himpl; by right.
  - rewrite Forall_forall in Hx |- *. intros y Hy.
    apply Himpl; [by left|by right|by apply Hx].
Qed.

Lemma StronglySorted_filter {A} (R : relation A) (P : A → Prop)
    `{!∀ x, Decision (P x)} (l : list A) :
  StronglySorted R l → StronglySorted R (filter P l).
Proof.
  induction 1 as [|x l Hl IH Hx]; [constructor|].
  rewrite filter_cons. destruct (decide (P x)); [|done].
  constructor; [done|].
  rewrite Forall_forall in Hx |- *.
  intros y [_ Hy]%list_elem_of_filter. by apply Hx.
Qed.

(** A list is sorted by the positions of its own elements. *)
Lemma before_sorted {A} (pre l : list A) : StronglySorted (before (pre ++ l)) l.
Proof.
  revert pre. induction l as [|x l IH]; intros pre; constructor.
  - specialize (IH (pre ++ [x])). by rewrite <- app_assoc in IH.
  - apply Forall_forall. intros y [k Hk]%list_elem_of_lookup.
    exists (length pre), (length pre + S k)%nat. split; [|split; [|lia]].
    + by rewrite lookup_app_r, Nat.sub_diag by lia.
    + rewrite lookup_app_r by lia.
      by replace (length pre + S k - length pre)%nat with (S k) by lia.
Qed.

Lemma before_antisym {A} (l : list A) (a b : A) :
  NoDup l → before l a b → before l b a → a = b.
Proof.
  intros Hnd (i & j & Hi & Hj & Hij) (j' & i' & Hj' & Hi' & Hji).
  pose proof (NoDup_lookup l i i' a Hnd Hi Hi').
  pose proof (NoDup_lookup l j j' b Hnd Hj Hj').
  assert (i = j) as -> by lia. congruence.
Qed.

(** After a reordering by a duplicate-free sequence that covers the tab,
    every entry of the tab carries the index of its ticker. *)
Lemma reorder_positions (s : Store) (tab_id : Z) (tickers : list string)
    (e' : Entry) :
  NoDup (normalize <$> tickers) →
  (∀ t, t ∈ tickers_of s tab_id → t ∈ normalize <$> tickers) →
  e' ∈ filter (λ e, w_tab_id e = tab_id)
              (watchlist (reorder_watchlist s tab_id tickers).2) →
  ∃ i : nat, (normalize <$> tickers) !! i = Some (w_ticker e')
             ∧ w_sort_order e' = Z.of_nat i.
Proof.
  intros Hnd Hcover. rewrite reorder_watchlist_rows. simpl.
  rewrite filter_reordered.
  intros (e & -> & He)%list_elem_of_fmap.
  pose proof He as [Htab _]%list_elem_of_filter.
  assert (w_ticker e ∈ normalize <$> tickers) as [i Hi]%list_elem_of_lookup.
  { apply Hcover. unfold tickers_of. by apply list_elem_of_fmap_2. }
  rewrite list_lookup_fmap in Hi.
  destruct (tickers !! i) as [t|] eqn:Ht; [|done].
  assert (w_ticker e = normalize t) as Htk by (simpl in Hi; congruence).
  exists i. rewrite (proj1 (proj2 (reordered_fields tab_id 0 tickers e))).
  split; [by rewrite list_lookup_fmap, Ht, Htk|].
  unfold reordered. rewrite decide_True by done. rewrite Htk.
  rewrite (position_from_last 0 tickers i t Ht); [simpl; lia|].
  intros j t' Hj Ht' Heq.
  assert (i = j); [|lia].
  apply (NoDup_lookup (normalize <$> tickers) i j (normalize t) Hnd);
    rewrite list_lookup_fmap; [by rewrite Ht|rewrite Ht'; simpl; by rewrite Heq].
Qed.

(** Listing after such a reordering yields the tab's tickers in the order
    of the sequence; elements of the sequence that the tab does not hold
    leave no trace. *)
Lemma reorder_then_list (s : Store) (tab_id : Z) (tickers : list string) :
  NoDup (tickers_of s tab_id) →
  NoDup (normalize <$> tickers) →
  (∀ t, t ∈ tickers_of s tab_id → t ∈ normalize <$> tickers) →
  wd_ticker <$> get_watchlist (reorder_watchlist s tab_id tickers).2 tab_id
  = filter (λ t, t ∈ tickers_of s tab_id) (normalize <$> tickers).
Proof.
  intros Huniq Hnd Hcover. unfold get_watchlist.
  rewrite <- list_fmap_compose.
  set (s' := (reorder_watchlist s tab_id tickers).2).
  set (W' := filter (λ e, w_tab_id e = tab_id) (watchlist s')).
  assert (w_ticker <$> merge_sort watchlist_order W' ≡ₚ tickers_of s tab_id)
    as Hperm.
  { rewrite merge_sort_Permutation. unfold W', s'.
    by rewrite <- (tickers_of_reorder s tab_id tab_id tickers). }
  change (wd_ticker ∘ _) with w_ticker.
  apply (StronglySorted_unique_strong (before (normalize <$> tickers))).
  - intros a b _ [_ Hb]%list_elem_of_filter Hab Hba.
    by apply (before_antisym (normalize <$> tickers)).
  - apply (StronglySorted_fmap _ (λ x y, before (normalize <$> tickers)
                                            (w_ticker x) (w_ticker y)));
      [done|].
    eapply StronglySorted_elem_impl; [|apply (StronglySorted_merge_sort _)].
    intros x y Hx Hy Hxy. rewrite merge_sort_Permutation in Hx, Hy.
    destruct (reorder_positions s tab_id tickers x Hnd Hcover Hx) as (i & Hi & Hxi).
    destruct (reorder_positions s tab_id tickers y Hnd Hcover Hy) as (j & Hj & Hyj).
    exists i, j. split; [done|]. split; [done|].
    unfold watchlist_order in Hxy. lia.
  - apply StronglySorted_filter. apply (before_sorted []).
  - rewrite Hperm. apply NoDup_Permutation; [done|by apply NoDup_filter|].
    intros t. rewrite list_elem_of_filter.
    split; [intros Ht; split; [done|by apply Hcover]|by intros [Ht _]].
Qed.

End listing_facts.

(** ** Seeding *)

Section seeding_facts.
Import database props.

Lemma unique_violation_false (s : Store) (tab_id : Z) (ticker : string) :
  ¬ pair_exists s tab_id ticker → unique_violation s tab_id ticker = false.
Proof.
  intros Hno. apply not_true_iff_false. by rewrite unique_violation_spec.
Qed.

Lemma seed_rows_tab (tab_id start : Z) (seeds : list (string * string))
    (rows : list Entry) :
  seed_rows tab_id start seeds rows → Forall (λ e, w_tab_id e = tab_id) rows.
Proof.
  unfold seed_rows. revert start seeds.
  induction rows as [|e rows IH]; intros start seeds Heq; [constructor|].
  destruct seeds as [|p seeds]; [done|]. simpl in Heq.
  injection Heq as Htab _ _ _ Hrest. constructor; [done|].
  by apply (IH (start + 1) seeds).
Qed.

(** The inner loop: with the tab present and none of the tickers in its
    watchlist yet, every ticker is appended, numbered in list order. *)
Lemma seed_tab_loop (tab_id now : Z) (seeds : list (string * string))
    (start : Z) (s : Store) :
  tab_exists s tab_id →
  NoDup (fst <$> seeds) →
  (∀ e, e ∈ watchlist s → w_tab_id e = tab_id → w_ticker e ∉ fst <$> seeds) →
  ∃ s' rows,
    fold_left
      (λ acc row, s ← acc;
         insert_or_ignore_watchlist s tab_id row.2.1 row.2.2 row.1 now)
      (enumerate_from start seeds) (Ok s) = Ok s'
    ∧ tabs s' = tabs s ∧ tabs_seq s' = tabs_seq s
    ∧ watchlist s' = watchlist s ++ rows
    ∧ seed_rows tab_id start seeds rows.
Proof.
  revert start s. induction seeds as [|[tk nm] seeds IH]; intros start s Hex Hnd Hfree.
  { exists s, []. by rewrite app_nil_r. }
  apply NoDup_cons in Hnd as [Htk Hnd]. simpl.
  unfold insert_or_ignore_watchlist at 2.
  rewrite unique_violation_false; cycle 1.
  { intros (e & He & Htab & Hticker). apply (Hfree e He Htab).
    rewrite Hticker. by left. }
  rewrite (proj2 (fk_violation_false s tab_id) Hex).
  set (s1 := append_watchlist s tab_id tk nm start now).
  destruct (IH (start + 1) s1) as (s' & rows & Hrun & Htabs & Hseq & Hw & Hrows).
  - done.
  - done.
  - intros e [He| ->%list_elem_of_singleton]%elem_of_app Htab; simpl.
    + intros Hin. apply (Hfree e He Htab). by right.
    + done.
  - eexists s', (_ :: rows). split; [exact Hrun|]. split; [done|].
    split; [done|]. split.
    + rewrite Hw. simpl. by rewrite <- app_assoc.
    + unfold seed_rows in *. csimpl. by rewrite Hrows.
Qed.

(** The outer loop, for any seed data: names that the map sends to
    distinct tabs of the store, none of which has entries yet, and seed
    lists without repeated tickers. *)
Lemma seed_watchlist_loop (m : gmap string Z) (now : Z)
    (defaults : list (string * list (string * string))) (s : Store) :
  NoDup (fst <$> defaults) →
  (∀ n n' id, m !! n = Some id → m !! n' = Some id → n = n') →
  (∀ d, d ∈ defaults →
     NoDup (fst <$> d.2)
     ∧ ∃ id, m !! d.1 = Some id ∧ id ≠ 0 ∧ tab_exists s id
             ∧ ∀ e, e ∈ watchlist s → w_tab_id e ≠ id) →
  ∃ s' rows,
    seed_watchlist m now defaults s = Ok s'
    ∧ tabs s' = tabs s ∧ tabs_seq s' = tabs_seq s
    ∧ watchlist s' = watchlist s ++ rows
    ∧ (∀ d id, d ∈ defaults → m !! d.1 = Some id →
         seed_rows id 0 d.2 (filter (λ e, w_tab_id e = id) rows))
    ∧ (∀ e, e ∈ rows → ∃ d, d ∈ defaults ∧ m !! d.1 = Some (w_tab_id e)).
Proof.
  revert s. induction defaults as [|d defaults IH]; intros s Hnames Hinj Hok.
  { exists s, []. rewrite app_nil_r. repeat split; try done.
    - intros d id Hd. by apply elem_of_nil in Hd.
    - intros e He. by apply elem_of_nil in He. }
  apply NoDup_cons in Hnames as [Hd Hnames].
  destruct (Hok d) as (Hnd & id & Hid & Hnz & Hex & Hfree); [by left|].
  destruct (seed_tab_loop id now d.2 0 s Hex Hnd) as (s1 & rows1 & Hrun1 & Htabs1 & Hseq1 & Hw1 & Hrows1).
  { intros e He Htab. by destruct (Hfree e He). }
  pose proof (seed_rows_tab _ _ _ _ Hrows1) as Htab1.
  destruct (IH s1) as (s' & rows & Hrun & Htabs & Hseq & Hw & Hrows & Hown).
  - done.
  - done.
  - intros d' Hd'. destruct (Hok d') as (Hnd' & id' & Hid' & Hnz' & Hex' & Hfree'); [by right|].
    split; [done|]. exists id'. split; [done|]. split; [done|]. split.
    + destruct Hex' as (t & Ht & Htid). exists t. by rewrite Htabs1.
    + rewrite Hw1. intros e [He|He]%elem_of_app; [by apply Hfree'|].
      rewrite Forall_forall in Htab1. rewrite (Htab1 e He). intros ->.
      apply Hd. rewrite (Hinj _ _ _ Hid Hid'). by apply list_elem_of_fmap_2.
  - exists s', (rows1 ++ rows).
    split.
    { unfold seed_watchlist in *. simpl. rewrite Hid.
      rewrite decide_False by done. unfold seed_tab, enumerate. by rewrite Hrun1. }
    split; [congruence|]. split; [congruence|]. split.
    { by rewrite Hw, Hw1, <- app_assoc. }
    split.
    + intros d' id' [->|Hd']%elem_of_cons Hid'.
      * assert (id' = id) as -> by congruence.
        rewrite filter_app, (filter_all _ rows1 Htab1), filter_none, app_nil_r; [done|].
        apply Forall_forall. intros e He Htab.
        destruct (Hown e He) as (d' & Hd' & Hid'').
        rewrite Htab in Hid''. apply Hd. rewrite (Hinj _ _ _ Hid Hid'').
        by apply list_elem_of_fmap_2.
      * rewrite filter_app, filter_none; [by apply Hrows|].
        apply Forall_forall. intros e He Htab.
        rewrite Forall_forall in Htab1. rewrite (Htab1 e He) in Htab. subst id'.
        apply Hd. rewrite (Hinj _ _ _ Hid Hid'). by apply list_elem_of_fmap_2.
    + intros e [He|He]%elem_of_app.
      * exists d. split; [by left|]. rewrite Forall_forall in Htab1.
        by rewrite (Htab1 e He).
      * destruct (Hown e He) as (d' & Hd' & Hid'). exists d'. split; [by right|done].
Qed.

End seeding_facts.

Section init_db_facts.
Import database props.

Lemma fold_right_max_ge (b : Z) (l : list Z) :
  b <= fold_right Z.max b l ∧ ∀ x, x ∈ l → x <= fold_right Z.max b l.
Proof.
  induction l as [|y l [IHb IHl]]; simpl.
  - split; [done|]. intros x Hx. by apply elem_of_nil in Hx.
  - split; [lia|]. intros x [->|Hx]%elem_of_cons; [lia|].
    specialize (IHl x Hx). lia.
Qed.

Lemma fold_right_max_bound (b : Z) (l : list Z) :
  (∀ x, x ∈ l → x <= b) → fold_right Z.max b l = b.
Proof.
  induction l as [|y l IH]; intros Hle; simpl; [done|].
  rewrite IH by (intros x Hx; apply Hle; by right).
  assert (y <= b) by (apply Hle; by left). lia.
Qed.

(** AUTOINCREMENT hands out a rowid above every id of the table and above
    the counter. *)
Lemma next_rowid_fresh (seq : Z) (ids : list Z) :
  seq < next_rowid seq ids ∧ ∀ x, x ∈ ids → x < next_rowid seq ids.
Proof.
  unfold next_rowid. destruct (fold_right_max_ge seq ids) as [Hb Hl].
  split; [lia|]. intros x Hx. specialize (Hl x Hx). lia.
Qed.

Lemma seed_tabs_cons (now : Z) (d : string * Z) (defaults : list (string * Z))
    (s : Store) :
  seed_tabs now (d :: defaults) s
  = seed_tabs now defaults (insert_tab s d.1 d.2 now).2.
Proof. reflexivity. Qed.

(** The tabs loop appends one row per default, with ids that grow. *)
Lemma seed_tabs_rows (now : Z) (defaults : list (string * Z)) (s : Store) :
  ∃ rows,
    tabs (seed_tabs now defaults s) = tabs s ++ rows
    ∧ watchlist (seed_tabs now defaults s) = watchlist s
    ∧ (λ t, (t_name t, t_sort_order t)) <$> rows = defaults
    ∧ Forall (λ t, tabs_seq s < t_id t ∧ ∀ x, x ∈ t_id <$> tabs s → x < t_id t) rows
    ∧ NoDup (t_id <$> rows)
    ∧ Forall (λ t, t_id t <= tabs_seq (seed_tabs now defaults s)) rows
    ∧ tabs_seq s <= tabs_seq (seed_tabs now defaults s).
Proof.
  revert s. induction defaults as [|[n so] defaults IH]; intros s.
  { exists []. rewrite app_nil_r. repeat split; try done; constructor. }
  rewrite seed_tabs_cons.
  set (s1 := (insert_tab s (n, so).1 (n, so).2 now).2).
  destruct (IH s1) as (rows & Htabs & Hw & Hdefs & Hfresh & Hnd & Hle & Hseq).
  destruct (next_rowid_fresh (tabs_seq s) (t_id <$> tabs s)) as [Hseq0 Hids0].
  set (row := {| t_id := next_rowid (tabs_seq s) (t_id <$> tabs s);
                 t_name := n; t_sort_order := so; t_created_at := now |}).
  assert (tabs s1 = tabs s ++ [row]) as Htabs1 by done.
  assert (tabs_seq s1 = t_id row) as Hseq1 by done.
  exists (row :: rows). split; [|split; [done|split; [|split; [|split; [|split]]]]].
  - rewrite Htabs, Htabs1. by rewrite <- app_assoc.
  - csimpl. by rewrite Hdefs.
  - constructor; [done|]. eapply Forall_impl; [exact Hfresh|].
    intros t [Ht1 Ht2]. rewrite Hseq1 in Ht1. split; [simpl in *; lia|].
    intros x Hx. apply Ht2. rewrite Htabs1, fmap_app. apply elem_of_app. by left.
  - csimpl. apply NoDup_cons. split; [|done].
    intros (t & Hid & Ht)%list_elem_of_fmap.
    rewrite Forall_forall in Hfresh. destruct (Hfresh t Ht) as [Hlt _].
    rewrite Hseq1 in Hlt. assert (t_id row = t_id t) as Heq by done. lia.
  - constructor; [|done]. rewrite <- Hseq1. done.
  - rewrite Hseq1 in Hseq. simpl in *. lia.
Qed.

Lemma tab_map_fold_notin (ts : list Tab) (m : gmap string Z) (n : string) :
  n ∉ t_name <$> ts →
  fold_left (λ m t, <[t_name t := t_id t]> m) ts m !! n = m !! n.
Proof.
  revert m. induction ts as [|t ts IH]; intros m Hn; simpl; [done|].
  rewrite IH by (intros Hin; apply Hn; by right).
  apply lookup_insert_ne. intros Heq. apply Hn. rewrite <- Heq. by left.
Qed.

Lemma tab_map_fold_lookup (ts : list Tab) (m : gmap string Z) (n : string) (id : Z) :
  fold_left (λ m t, <[t_name t := t_id t]> m) ts m !! n = Some id →
  m !! n = Some id ∨ ∃ t, t ∈ ts ∧ t_name t = n ∧ t_id t = id.
Proof.
  revert m. induction ts as [|t ts IH]; intros m; simpl; [by left|].
  intros [Hm|(t' & Ht' & Hn & Hid)]%IH.
  - destruct (decide (t_name t = n)) as [Heq|Hne].
    + rewrite Heq, lookup_insert_eq in Hm. right. exists t.
      split; [by left|]. split; [done|]. congruence.
    + rewrite lookup_insert_ne in Hm by done. by left.
  - right. exists t'. split; [by right|done].
Qed.

(** Every value of the name-to-id map is the id of a tab of that name. *)
Lemma tab_map_lookup (ts : list Tab) (n : string) (id : Z) :
  tab_map ts !! n = Some id → ∃ t, t ∈ ts ∧ t_name t = n ∧ t_id t = id.
Proof. intros [Hm|Ht]%tab_map_fold_lookup; [by rewrite lookup_empty in Hm|done]. Qed.

Lemma tab_map_fold_elem (ts : list Tab) (m : gmap string Z) (t : Tab) :
  NoDup (t_name <$> ts) → t ∈ ts →
  fold_left (λ m t, <[t_name t := t_id t]> m) ts m !! t_name t = Some (t_id t).
Proof.
  revert m. induction ts as [|t0 ts IH]; intros m Hnd Ht; [by apply elem_of_nil in Ht|].
  csimpl in Hnd. apply NoDup_cons in Hnd as [Ht0 Hnd]. simpl.
  apply elem_of_cons in Ht as [->|Ht].
  - rewrite tab_map_fold_notin by done. apply lookup_insert_eq.
  - by apply IH.
Qed.

End init_db_facts.

Section init_db_claim.
Import database props.

Lemma insert_or_ignore_total (s : Store) (tab_id : Z) (ticker name : string)
    (sort_order now : Z) :
  tab_exists s tab_id →
  ∃ s', insert_or_ignore_watchlist s tab_id ticker name sort_order now = Ok s'
        ∧ tabs s' = tabs s.
Proof.
  intros Hex. unfold insert_or_ignore_watchlist.
  destruct (unique_violation s tab_id ticker); [by exists s|].
  rewrite (proj2 (fk_violation_false s tab_id) Hex). by eexists.
Qed.

Lemma seed_tab_total (tab_id now : Z) (seeds : list (string * string)) (s : Store) :
  tab_exists s tab_id →
  ∃ s', seed_tab tab_id now seeds s = Ok s' ∧ tabs s' = tabs s.
Proof.
  unfold seed_tab, enumerate. generalize 0. revert s.
  induction seeds as [|[tk nm] seeds IH]; intros s start Hex; simpl.
  { by exists s. }
  destruct (insert_or_ignore_total s tab_id tk nm start now Hex) as (s1 & -> & Htabs1).
  destruct (IH s1 (start + 1)) as (s' & Hrun & Htabs).
  { destruct Hex as (t & Ht & Hid). exists t. by rewrite Htabs1. }
  exists s'. split; [done|congruence].
Qed.

(** The seeding of the watchlist cannot fail: the ids it inserts under
    come from the tabs table. *)
Lemma seed_watchlist_total (m : gmap string Z) (now : Z)
    (defaults : list (string * list (string * string))) (s : Store) :
  (∀ n id, m !! n = Some id → tab_exists s id) →
  ∃ s', seed_watchlist m now defaults s = Ok s' ∧ tabs s' = tabs s.
Proof.
  unfold seed_watchlist. revert s.
  induction defaults as [|d defaults IH]; intros s Hm; simpl.
  { by exists s. }
  assert (∃ s1, match m !! d.1 with
                | Some tab_id =>
                    if decide (tab_id = 0) then Ok s
                    else seed_tab tab_id now d.2 s
                | None => Ok s
                end = Ok s1 ∧ tabs s1 = tabs s) as (s1 & -> & Htabs1).
  { destruct (m !! d.1) as [id|] eqn:Hid; [|by exists s].
    destruct (decide (id = 0)); [by exists s|].
    apply seed_tab_total. by apply (Hm d.1). }
  destruct (IH s1) as (s' & Hrun & Htabs).
  { intros n id Hn. destruct (Hm n id Hn) as (t & Ht & Hid).
    exists t. by rewrite Htabs1. }
  exists s'. split; [done|congruence].
Qed.

Lemma seeding_total (s : Store) (now : Z) :
  let s1 := seed_tabs now seed_data.DEFAULT_TABS s in
  ∃ s', seed_watchlist (tab_map (tabs s1)) now seed_data.DEFAULT_WATCHLIST s1
          = Ok s'
        ∧ tabs s' ≠ [].
Proof.
  intros s1.
  destruct (seed_watchlist_total (tab_map (tabs s1)) now
              seed_data.DEFAULT_WATCHLIST s1) as (s' & Hrun & Htabs).
  { intros n id (t & Ht & _ & Hid)%tab_map_lookup. by exists t. }
  exists s'. split; [done|]. rewrite Htabs.
  destruct (seed_tabs_rows now seed_data.DEFAULT_TABS s)
    as (rows & Hrows & _ & Hdefs & _).
  fold s1 in Hrows. rewrite Hrows. intros [_ ->]%app_eq_nil. done.
Qed.

Lemma init_db_populated (s : Store) (now : Z) :
  tabs s ≠ [] → init_db (Current s) now = Ok s.
Proof.
  intros Hne. unfold init_db. rewrite decide_False; [done|].
  by destruct (tabs s).
Qed.

Lemma init_db_unpopulated (s : Store) (now : Z) :
  tabs s = [] →
  init_db (Current s) now
  = seed_watchlist (tab_map (tabs (seed_tabs now seed_data.DEFAULT_TABS s)))
      now seed_data.DEFAULT_WATCHLIST (seed_tabs now seed_data.DEFAULT_TABS s).
Proof.
  intros Hempty. unfold init_db. rewrite decide_True; [done|]. by rewrite Hempty.
Qed.

(** The renumbering of the migration touches [sort_order] only. *)
Lemma migrate_rows (ts : list Tab) (ws : list LegacyEntry) (tseq wseq : Z) :
  tabs (migrate ts ws tseq wseq) = ts
  ∧ (λ e, (w_id e, w_tab_id e, w_ticker e, w_name e, w_added_at e))
      <$> watchlist (migrate ts ws tseq wseq)
    = (λ l, (l_id l, l_tab_id l, l_ticker l, l_name l, l_added_at l)) <$> ws.
Proof.
  split; [done|]. unfold migrate. simpl.
  set (key := λ e, (w_id e, w_tab_id e, w_ticker e, w_name e, w_added_at e)).
  set (w0 := _ <$> ws).
  assert (key <$> w0 = (λ l, (l_id l, l_tab_id l, l_ticker l, l_name l,
                              l_added_at l)) <$> ws) as <-.
  { unfold w0. rewrite <- list_fmap_compose. by apply list_fmap_ext. }
  generalize (@None Z) 0 ((λ e, (w_id e, w_tab_id e)) <$> merge_sort backfill_order w0).
  generalize w0. clear w0. intros w cur order rows. revert w cur order.
  induction rows as [|[id tab] rows IH]; intros w cur order; simpl; [done|].
  rewrite IH. unfold update_sort_order_by_id. rewrite <- list_fmap_compose.
  apply list_fmap_ext. intros _ e _. simpl. by destruct (decide (w_id e = id)).
Qed.

(** C8. Started on a store without tabs (its constraints holding),
    [init_db] inserts exactly the tabs "Main", "MAG7", "AA", "US Sectors"
    with [sort_order] 0 to 3 and, for each, exactly its seed tickers with
    [sort_order] equal to the list index.  With a tab present it inserts
    nothing, also when it migrates an old table.  It always returns, and a
    second run leaves what the first produced. *)
Theorem init_db_seeds_once (s : Store) (now : Z) :
  (tabs s = [] → (∀ e, e ∈ watchlist s → tab_exists s (w_tab_id e)) →
   0 <= tabs_seq s →
   ∃ s', init_db (Current s) now = Ok s'
     ∧ (λ t, (t_name t, t_sort_order t)) <$> tabs s'
       = [ ("Main", 0); ("MAG7", 1); ("AA", 2); ("US Sectors", 3) ]
     ∧ (∀ t seeds, t ∈ tabs s' →
          (t_name t, seeds) ∈ seed_data.DEFAULT_WATCHLIST →
          seed_rows (t_id t) 0 seeds (entries_of s' (t_id t)))
     ∧ (∀ e, e ∈ watchlist s' → tab_exists s' (w_tab_id e)))
  ∧ (tabs s ≠ [] → init_db (Current s) now = Ok s)
  ∧ (∀ ts ws tseq wseq, ts ≠ [] →
       ∃ s', init_db (Legacy ts ws tseq wseq) now = Ok s'
         ∧ tabs s' = ts ∧ w_id <$> watchlist s' = l_id <$> ws)
  ∧ (∀ db, ∃ s1, init_db db now = Ok s1
       ∧ ∀ now', init_db (Current s1) now' = Ok s1).
Proof.
  split; [|split; [apply init_db_populated|split]].
  - intros Hempty Hfk Hseq.
    assert (watchlist s = []) as Hw.
    { destruct (watchlist s) as [|e w] eqn:Hws; [done|].
      destruct (Hfk e) as (t & Ht & _); [by left|].
      rewrite Hempty in Ht. by apply elem_of_nil in Ht. }
    rewrite init_db_unpopulated by done.
    destruct (seed_tabs_rows now seed_data.DEFAULT_TABS s)
      as (rows & Hrows & Hw1 & Hdefs & Hfresh & Hnd & _).
    set (s1 := seed_tabs now seed_data.DEFAULT_TABS s) in *.
    rewrite Hempty, app_nil_l in Hrows. rewrite Hw in Hw1.
    assert (t_name <$> tabs s1 = fst <$> seed_data.DEFAULT_TABS) as Hnames.
    { rewrite Hrows, <- Hdefs, <- list_fmap_compose. by apply list_fmap_ext. }
    assert (NoDup (t_name <$> tabs s1)) as Hndn.
    { rewrite Hnames. apply (bool_decide_unpack _). by vm_compute. }
    destruct (seed_watchlist_loop (tab_map (tabs s1)) now
                seed_data.DEFAULT_WATCHLIST s1)
      as (s' & rows' & Hrun & Htabs & _ & Hw' & Hseeded & Hown).
    { apply (bool_decide_unpack _). by vm_compute. }
    { intros n n' id (t & Ht & Hn & Hid)%tab_map_lookup
                     (t' & Ht' & Hn' & Hid')%tab_map_lookup.
      rewrite <- Hn, <- Hn'. f_equal.
      rewrite Hrows in Ht, Ht'.
      apply list_elem_of_lookup in Ht as [i Hi], Ht' as [i' Hi'].
      assert (i = i'); [|congruence].
      apply (NoDup_lookup (t_id <$> rows) i i' id Hnd);
        rewrite list_lookup_fmap; [by rewrite Hi, <- Hid|by rewrite Hi', <- Hid']. }
    { intros d Hd. split.
      { revert d Hd. apply Forall_forall, (bool_decide_unpack _). by vm_compute. }
      assert (d.1 ∈ t_name <$> tabs s1) as (t & Hn & Ht)%list_elem_of_fmap.
      { rewrite Hnames. revert d Hd.
        apply Forall_forall, (bool_decide_unpack _). by vm_compute. }
      exists (t_id t). split; [|split; [|split]].
      - rewrite Hn. by apply tab_map_fold_elem.
      - rewrite Hrows in Ht. rewrite Forall_forall in Hfresh.
        destruct (Hfresh t Ht) as [Hlt _]. lia.
      - by exists t.
      - intros e He. rewrite Hw1 in He. by apply elem_of_nil in He. }
    exists s'. split; [done|]. split; [by rewrite Htabs, Hrows, Hdefs|].
    rewrite Hw1, app_nil_l in Hw'. split.
    + intros t seeds Ht Hseeds. unfold entries_of. rewrite Hw'.
      rewrite Htabs in Ht.
      apply (Hseeded (t_name t, seeds) (t_id t) Hseeds).
      change ((t_name t, seeds).1) with (t_name t).
      by apply tab_map_fold_elem.
    + intros e He. rewrite Hw' in He.
      destruct (Hown e He) as (d & _ & (t & Ht & _ & Hid)%tab_map_lookup).
      exists t. by rewrite Htabs.
  - intros ts ws tseq wseq Hne. exists (migrate ts ws tseq wseq).
    destruct (migrate_rows ts ws tseq wseq) as [Htabs Hrows].
    split; [|split; [done|]].
    + unfold init_db. rewrite decide_False; [done|].
      rewrite Htabs. by destruct ts.
    + apply (f_equal (fmap (λ p, p.1.1.1.1))) in Hrows.
      rewrite <- !list_fmap_compose in Hrows. exact Hrows.
  - intros db.
    assert (∀ s0, ∃ s1, init_db (Current s0) now = Ok s1 ∧ tabs s1 ≠ [])
      as Hcur.
    { intros s0. destruct (tabs s0) as [|t l] eqn:Hts.
      - rewrite init_db_unpopulated by done. apply seeding_total.
      - exists s0. rewrite init_db_populated; [|by rewrite Hts]. by rewrite Hts. }
    assert (∃ s1, init_db db now = Ok s1 ∧ tabs s1 ≠ []) as (s1 & Hrun & Hne).
    { destruct db as [ts ws tseq wseq|s0]; [|apply Hcur].
      apply (Hcur (migrate ts ws tseq wseq)). }
    exists s1. split; [done|]. intros now'. by apply init_db_populated.
Qed.

Lemma init_db_seeds_once_witness :
  ∃ s', init_db (Current empty_store) 0 = Ok s'
    ∧ (λ t, (t_name t, t_sort_order t)) <$> tabs s'
      = [ ("Main", 0); ("MAG7", 1); ("AA", 2); ("US Sectors", 3) ]
    ∧ (∀ t seeds, t ∈ tabs s' →
         (t_name t, seeds) ∈ seed_data.DEFAULT_WATCHLIST →
         seed_rows (t_id t) 0 seeds (entries_of s' (t_id t)))
    ∧ (∀ e, e ∈ watchlist s' → tab_exists s' (w_tab_id e)).
Proof.
  destruct (init_db_seeds_once empty_store 0) as [Hseed _].
  apply Hseed; [done| |done].
  intros e He. by apply elem_of_nil in He.
Defined.

End init_db_claim.

(** ** The stores the program produces *)

Section invariant.
Import database props.

Lemma NoDup_fmap_filter {A B} (f : A → B) (P : A → Prop)
    `{!∀ x, Decision (P x)} (l : list A) :
  NoDup (f <$> l) → NoDup (f <$> filter P l).
Proof.
  induction l as [|x l IH]; csimpl; [done|].
  rewrite NoDup_cons. intros [Hx Hl]. rewrite filter_cons.
  destruct (decide (P x)); csimpl; [|by apply IH].
  apply NoDup_cons. split; [|by apply IH].
  intros (y & Hy & [_ Hin]%list_elem_of_filter)%list_elem_of_fmap.
  apply Hx. rewrite Hy. by apply list_elem_of_fmap_2.
Qed.

(** UNIQUE(tab_id, ticker) makes the tickers of each tab distinct. *)
Lemma unique_tickers_of (s : Store) (tab_id : Z) :
  NoDup ((λ e, (w_tab_id e, w_ticker e)) <$> watchlist s) →
  NoDup (tickers_of s tab_id).
Proof.
  unfold tickers_of.
  induction (watchlist s) as [|e w IH]; csimpl; [intros; constructor|].
  rewrite NoDup_cons. intros [He Hw]. rewrite filter_cons.
  destruct (decide (w_tab_id e = tab_id)) as [Htab|]; csimpl; [|by apply IH].
  apply NoDup_cons. split; [|by apply IH].
  intros (e' & Htk & [Htab' Hin]%list_elem_of_filter)%list_elem_of_fmap.
  apply He. apply list_elem_of_fmap. exists e'. split; [|done]. congruence.
Qed.

Lemma install_ok (now : Z) (s : Store) :
  init_db (Current empty_store) now = Ok s → store_ok s.
Proof.
  intros Hrun. vm_compute in Hrun. injection Hrun as <-. split.
  - done.
  - apply (bool_decide_unpack _). by vm_compute.
  - apply Forall_forall, (bool_decide_unpack _). by vm_compute.
  - intros e He. apply fk_violation_false. revert e He.
    apply Forall_forall, (bool_decide_unpack _). by vm_compute.
  - apply (bool_decide_unpack _). by vm_compute.
  - apply Forall_forall, (bool_decide_unpack _). by vm_compute.
Qed.

Lemma create_tab_ok (s : Store) (name : string) (now : Z) :
  store_ok s → store_ok (create_tab s name now).2.
Proof.
  intros [Hne Hpk Hseq Hfk Huniq Hnorm]. rewrite create_tab_row.
  destruct (next_rowid_fresh (tabs_seq s) (t_id <$> tabs s)) as [Hfresh Hids].
  split; simpl.
  - intros [_ Hrow]%app_eq_nil. done.
  - rewrite fmap_app. apply NoDup_app. split; [done|]. split.
    + intros x Hx ->%list_elem_of_singleton. specialize (Hids _ Hx).
      simpl in Hids. lia.
    + apply NoDup_singleton.
  - assert (0 <= tabs_seq s) as Hpos.
    { destruct (tabs s) as [|t l]; [done|].
      specialize (Hseq t (list_elem_of_here _ _)). lia. }
    intros t [Ht| ->%list_elem_of_singleton]%elem_of_app; simpl.
    + specialize (Hseq t Ht). lia.
    + lia.
  - intros e He. destruct (Hfk e He) as (t & Ht & Hid).
    exists t. split; [|done]. apply elem_of_app. by left.
  - done.
  - done.
Qed.

Lemma rename_tab_ok (s : Store) (tab_id : Z) (new_name : string) :
  store_ok s → store_ok (rename_tab s tab_id new_name).2.
Proof.
  intros [Hne Hpk Hseq Hfk Huniq Hnorm].
  set (f := λ t, if decide (t_id t = tab_id)
                 then set_t_name (strip new_name) t else t).
  assert (∀ t, t_id (f t) = t_id t) as Hf.
  { intros t. unfold f. by destruct (decide (t_id t = tab_id)). }
  split; simpl; fold f.
  - by destruct (tabs s).
  - rewrite <- list_fmap_compose.
    by rewrite (list_fmap_ext (t_id ∘ f) t_id (tabs s)) by (intros; apply Hf).
  - intros t' (t & -> & Ht)%list_elem_of_fmap. rewrite Hf. by apply Hseq.
  - intros e He. destruct (Hfk e He) as (t & Ht & Hid).
    exists (f t). split; [by apply list_elem_of_fmap_2|by rewrite Hf].
  - done.
  - done.
Qed.

Lemma delete_tab_ok (s : Store) (tab_id : Z) :
  store_ok s → store_ok (delete_tab s tab_id).2.
Proof.
  intros [Hne Hpk Hseq Hfk Huniq Hnorm]. unfold delete_tab.
  destruct (decide (length (tabs s) <= 1)%nat) as [|Hmany]; [done|].
  split; simpl.
  - pose proof (filter_ne_length t_id tab_id (tabs s) Hpk) as Hlen.
    intros Hnil. rewrite Hnil in Hlen. simpl in Hlen. lia.
  - by apply NoDup_fmap_filter.
  - intros t [_ Ht]%list_elem_of_filter. by apply Hseq.
  - intros e He.
    assert (e ∈ watchlist s ∧ w_tab_id e ≠ tab_id) as [He' Hne'].
    { destruct (decide (length (filter (λ t, t_id t = tab_id) (tabs s)) = 0%nat))
        as [Hzero|_].
      - split; [done|]. destruct (Hfk e He) as (t & Ht & Hid). intros Heq.
        assert (t ∈ filter (λ t, t_id t = tab_id) (tabs s)) as Hin
          by (apply list_elem_of_filter; split; [congruence|done]).
        apply length_zero_iff_nil in Hzero. rewrite Hzero in Hin.
        by apply elem_of_nil in Hin.
      - by apply list_elem_of_filter in He as [? ?]. }
    destruct (Hfk e He') as (t & Ht & Hid). exists t. split; [|done].
    apply list_elem_of_filter. split; [congruence|done].
  - destruct (decide _); [done|]. by apply NoDup_fmap_filter.
  - intros e He. apply Hnorm.
    destruct (decide _); [done|]. by apply list_elem_of_filter in He as [_ ?].
Qed.

Lemma add_ticker_ok (s : Store) (tab_id : Z) (ticker name : string) (now : Z)
    (r : bool * Store) :
  store_ok s → add_ticker s tab_id ticker name now = Ok r → store_ok r.2.
Proof.
  intros Hok Hrun.
  destruct (add_ticker_cases s tab_id ticker name now)
    as [[Hr _]|[Hr [Hno Hex]]]; rewrite Hr in Hrun; injection Hrun as <-; [done|].
  destruct Hok as [Hne Hpk Hseq Hfk Huniq Hnorm]. split; simpl; try done.
  - intros e [He| ->%list_elem_of_singleton]%elem_of_app; [by apply Hfk|done].
  - rewrite fmap_app. apply NoDup_app. split; [done|]. split; [|apply NoDup_singleton].
    intros p (e & -> & He)%list_elem_of_fmap [= Htab Htk]%list_elem_of_singleton.
    apply Hno. by exists e.
  - intros e [He| ->%list_elem_of_singleton]%elem_of_app; [by apply Hnorm|].
    apply normalize_idem.
Qed.

Lemma reorder_watchlist_ok (s : Store) (tab_id : Z) (tickers : list string) :
  store_ok s → store_ok (reorder_watchlist s tab_id tickers).2.
Proof.
  intros [Hne Hpk Hseq Hfk Huniq Hnorm]. rewrite reorder_watchlist_rows.
  split; simpl; try done.
  - intros e' (e & -> & He)%list_elem_of_fmap.
    rewrite (proj1 (reordered_fields tab_id 0 tickers e)). by apply Hfk.
  - rewrite <- list_fmap_compose.
    rewrite (list_fmap_ext _ (λ e, (w_tab_id e, w_ticker e)) (watchlist s)); [done|].
    intros _ e _. simpl.
    destruct (reordered_fields tab_id 0 tickers e) as (-> & -> & _). done.
  - intros e' (e & -> & He)%list_elem_of_fmap.
    rewrite (proj1 (proj2 (reordered_fields tab_id 0 tickers e))). by apply Hnorm.
Qed.

Lemma remove_ticker_ok (s : Store) (tab_id : Z) (ticker : string) :
  store_ok s → store_ok (remove_ticker s tab_id ticker).2.
Proof.
  intros [Hne Hpk Hseq Hfk Huniq Hnorm]. split; simpl; try done.
  - intros e [_ He]%list_elem_of_filter. by apply Hfk.
  - by apply NoDup_fmap_filter.
  - intros e [_ He]%list_elem_of_filter. by apply Hnorm.
Qed.

(** Every store the program produces satisfies the constraints. *)
Lemma reachable_ok (s : Store) : reachable s → store_ok s.
Proof.
  induction 1 as [now s Hrun|s now s' _ IH Hrun| | | |s tab_id ticker name now r _ IH Hrun| | ].
  - by apply (install_ok now).
  - rewrite init_db_populated in Hrun by apply IH. by injection Hrun as <-.
  - by apply create_tab_ok.
  - by apply rename_tab_ok.
  - by apply delete_tab_ok.
  - by apply (add_ticker_ok s tab_id ticker name now).
  - by apply reorder_watchlist_ok.
  - by apply remove_ticker_ok.
Qed.

End invariant.

Section delete_tab_claim.
Import database props.

(** C1. The store never holds zero tabs: every store the program produces
    has a tab.  With exactly one tab [delete_tab] returns false and changes
    nothing, whatever the id; with two or more tabs and an id that is
    present, it returns true, removes that tab and removes exactly the
    watchlist entries of that tab; and with ids unique, a store that held
    a tab still holds one afterwards. *)
Theorem delete_tab_keeps_a_tab (s : Store) (tab_id : Z) :
  (reachable s → tabs s ≠ [])
  ∧ (length (tabs s) = 1%nat → delete_tab s tab_id = (false, s))
  ∧ ((2 <= length (tabs s))%nat → tab_exists s tab_id →
     ∃ s', delete_tab s tab_id = (true, s')
       ∧ tabs s' = filter (λ t, t_id t ≠ tab_id) (tabs s)
       ∧ ¬ tab_exists s' tab_id
       ∧ watchlist s' = filter (λ e, w_tab_id e ≠ tab_id) (watchlist s))
  ∧ (NoDup (t_id <$> tabs s) → tabs s ≠ [] →
     tabs (delete_tab s tab_id).2 ≠ []).
Proof.
  split; [intros Hreach; by apply reachable_ok|].
  split; [apply delete_tab_last|]. split.
  - intros Hmany Hex. eexists. split; [by apply delete_tab_many|].
    simpl. split; [done|]. split; [|done].
    intros (t & Ht & Hid). apply list_elem_of_filter in Ht as [Hne _]. done.
  - intros Hpk Hne. unfold delete_tab.
    destruct (decide (length (tabs s) <= 1)%nat) as [|Hmany]; [done|].
    simpl. pose proof (filter_ne_length t_id tab_id (tabs s) Hpk) as Hlen.
    intros Hnil. rewrite Hnil in Hlen. simpl in Hlen. lia.
Qed.

Lemma delete_tab_keeps_a_tab_witness :
  reachable fresh_install
  ∧ (2 <= length (tabs fresh_install))%nat
  ∧ tab_exists fresh_install 2
  ∧ NoDup (t_id <$> tabs fresh_install)
  ∧ (∃ s', delete_tab fresh_install 2 = (true, s')
       ∧ tabs s' = filter (λ t, t_id t ≠ 2) (tabs fresh_install)
       ∧ ¬ tab_exists s' 2
       ∧ watchlist s' = filter (λ e, w_tab_id e ≠ 2) (watchlist fresh_install))
  ∧ tabs (delete_tab fresh_install 2).2 ≠ [].
Proof.
  assert (reachable fresh_install) as Hreach.
  { apply (reach_install 0). by vm_compute. }
  assert (2 <= length (tabs fresh_install))%nat as Hmany by (vm_compute; lia).
  assert (tab_exists fresh_install 2) as Hex.
  { apply fk_violation_false. by vm_compute. }
  assert (NoDup (t_id <$> tabs fresh_install)) as Hpk.
  { apply (bool_decide_unpack _). by vm_compute. }
  destruct (delete_tab_keeps_a_tab fresh_install 2) as (_ & _ & Hdel & Hkeep).
  split; [done|]. split; [done|]. split; [done|]. split; [done|].
  split; [by apply Hdel|]. apply Hkeep; [done|]. by vm_compute.
Defined.

End delete_tab_claim.

Section reorder_claim.
Import database props.

(** C4. [reorder_watchlist] returns true and inserts or removes nothing.
    A row of the tab whose ticker is the normal form of an element of the
    sequence gets that element's index as [sort_order] (the last such
    index, should the sequence repeat a ticker); rows of other tabs and
    rows no element names stay as they are, so an element the tab does not
    hold changes nothing.  When the sequence is a permutation of the tab's
    tickers, [get_watchlist] then returns the entries in the order of the
    sequence: so it is in every store the program produces, and in any
    store with at most one row per tab and ticker (up to the normal form
    of the tickers, where the stored ones are not all normal). *)
Theorem reorder_watchlist_orders (s : Store) (tab_id : Z) (tickers : list string) :
  let s' := (reorder_watchlist s tab_id tickers).2 in
  (reorder_watchlist s tab_id tickers).1 = true
  ∧ tabs s' = tabs s
  ∧ length (watchlist s') = length (watchlist s)
  ∧ (∀ k e i t,
       watchlist s !! k = Some e → w_tab_id e = tab_id →
       tickers !! i = Some t → normalize t = w_ticker e →
       (∀ j t', (i < j)%nat → tickers !! j = Some t' →
                normalize t' ≠ w_ticker e) →
       watchlist s' !! k = Some (set_w_sort_order (Z.of_nat i) e))
  ∧ (∀ k e,
       watchlist s !! k = Some e →
       w_tab_id e ≠ tab_id ∨ (∀ t, t ∈ tickers → normalize t ≠ w_ticker e) →
       watchlist s' !! k = Some e)
  ∧ (reachable s → tickers ≡ₚ tickers_of s tab_id →
     wd_ticker <$> get_watchlist s' tab_id = tickers)
  ∧ (NoDup (tickers_of s tab_id) →
     Forall (λ t, normalize t = t) (tickers_of s tab_id) →
     tickers ≡ₚ tickers_of s tab_id →
     wd_ticker <$> get_watchlist s' tab_id = tickers)
  ∧ (NoDup (tickers_of s tab_id) →
     normalize <$> tickers ≡ₚ tickers_of s tab_id →
     wd_ticker <$> get_watchlist s' tab_id = normalize <$> tickers).
Proof.
  intros s'. unfold s'. rewrite reorder_watchlist_rows. simpl.
  split; [done|]. split; [done|]. split; [by rewrite length_fmap|].
  assert (NoDup (tickers_of s tab_id) →
          normalize <$> tickers ≡ₚ tickers_of s tab_id →
          wd_ticker <$> get_watchlist
            {| tabs := tabs s;
               watchlist := reordered tab_id 0 tickers <$> watchlist s;
               tabs_seq := tabs_seq s;
               watchlist_seq := watchlist_seq s |} tab_id
          = normalize <$> tickers) as Hlist.
  { intros Huniq Hperm.
    pose proof (reorder_then_list s tab_id tickers Huniq) as Hsorted.
    rewrite reorder_watchlist_rows in Hsorted. simpl in Hsorted.
    rewrite Hsorted.
    - apply filter_all, Forall_forall. intros t Ht. by rewrite <- Hperm.
    - by rewrite Hperm.
    - intros t Ht. by rewrite Hperm. }
  assert (NoDup (tickers_of s tab_id) →
          Forall (λ t, normalize t = t) (tickers_of s tab_id) →
          tickers ≡ₚ tickers_of s tab_id →
          wd_ticker <$> get_watchlist
            {| tabs := tabs s;
               watchlist := reordered tab_id 0 tickers <$> watchlist s;
               tabs_seq := tabs_seq s;
               watchlist_seq := watchlist_seq s |} tab_id
          = tickers) as Hexact.
  { intros Huniq Hnorm Hperm.
    assert (normalize <$> tickers = tickers) as Hid.
    { rewrite <- Hperm in Hnorm. clear -Hnorm.
      induction Hnorm as [|t l Ht Hl IH]; csimpl; [done|]. by rewrite Ht, IH. }
    rewrite <- Hid at 2. apply Hlist; [done|]. by rewrite Hid. }
  split; [|split; [|split; [|split; [done|done]]]].
  - intros k e i t Hk Htab Hi Htk Hlater.
    rewrite list_lookup_fmap, Hk. simpl. f_equal.
    unfold reordered. rewrite decide_True by done. rewrite <- Htk.
    rewrite (position_from_last 0 tickers i t Hi); [done|].
    intros j t' Hj Ht'. rewrite Htk. by apply (Hlater j).
  - intros k e Hk Hwhy. rewrite list_lookup_fmap, Hk. simpl. f_equal.
    unfold reordered. destruct (decide (w_tab_id e = tab_id)) as [Htab|]; [|done].
    destruct Hwhy as [|Hno]; [done|]. by rewrite position_from_none.
  - intros [_ _ _ _ Huniq Hnorm]%reachable_ok Hperm.
    apply Hexact; [by apply unique_tickers_of| |done].
    apply Forall_forall.
    intros t (e & -> & [_ He]%list_elem_of_filter)%list_elem_of_fmap.
    by apply Hnorm.
Qed.

Lemma reorder_watchlist_orders_witness :
  reachable fresh_install
  ∧ NoDup (tickers_of fresh_install 1)
  ∧ normalize <$> ["vti"; "AEM"; "fsagx "; "TLT"] ≡ₚ tickers_of fresh_install 1
  ∧ wd_ticker <$> get_watchlist
      (reorder_watchlist fresh_install 1 ["vti"; "AEM"; "fsagx "; "TLT"]).2 1
    = ["VTI"; "AEM"; "FSAGX"; "TLT"].
Proof.
  assert (NoDup (tickers_of fresh_install 1)) as Huniq.
  { apply (bool_decide_unpack _). by vm_compute. }
  assert (normalize <$> ["vti"; "AEM"; "fsagx "; "TLT"]
          ≡ₚ tickers_of fresh_install 1) as Hperm.
  { apply (bool_decide_unpack _). by vm_compute. }
  split; [apply (reach_install 0); by vm_compute|].
  split; [done|]. split; [done|].
  destruct (reorder_watchlist_orders fresh_install 1
              ["vti"; "AEM"; "fsagx "; "TLT"]) as (_ & _ & _ & _ & _ & _ & _ & Hlist).
  apply (Hlist Huniq Hperm).
Defined.

End reorder_claim.

(** ** Quotes *)

Section quote_facts.
Import market_data quote_props.
Context {F : Type} `{PyFloat F}.

Lemma iloc_last {A} (l : list A) (x : A) : iloc (l ++ [x]) (-1) = Ok x.
Proof.
  unfold iloc. rewrite length_app. simpl.
  destruct (decide (0 <= Z.of_nat (length l + 1) + -1)) as [_|Hneg]; [|lia].
  replace (Z.to_nat (Z.of_nat (length l + 1) + -1)) with (length l) by lia.
  by rewrite lookup_app_r, Nat.sub_diag by lia.
Qed.

Lemma iloc_before_last {A} (l : list A) (y x : A) :
  iloc (l ++ [y; x]) (-2) = Ok y.
Proof.
  unfold iloc. rewrite length_app. simpl.
  destruct (decide (0 <= Z.of_nat (length l + 2) + -2)) as [_|Hneg]; [|lia].
  replace (Z.to_nat (Z.of_nat (length l + 2) + -2)) with (length l) by lia.
  by rewrite lookup_app_r, Nat.sub_diag by lia.
Qed.

(** The fetch, for a history with a last bar: what is left to go wrong is
    the conversion of the volume. *)
Lemma get_quote_rows (yf : Provider F) (now ticker : string)
    (hist : DataFrame F) (bars : list (Bar F)) (last : Bar F) :
  history (yf ticker) = Ok hist → rows hist = bars ++ [last] →
  let current_price := Close last in
  let prev_close := previous_close bars current_price in
  let change := fsub current_price prev_close in
  let change_pct :=
    if truthy prev_close then fmul (fdiv change prev_close) (of_int 100)
    else of_int 0 in
  let e := enrich (yf ticker) ticker current_price in
  get_quote yf now ticker =
    match (if has_volume hist then to_int (Volume last) else Ok 0) with
    | Ok volume =>
        Ok (Some
          {| q_ticker := upper ticker;
             q_name := e_name e;
             q_long_name := str_or (e_long_name e) (e_name e);
             q_price := round2 current_price;
             q_change := round2 change;
             q_change_pct := round2 change_pct;
             q_prev_close := round2 prev_close;
             q_high := round2 (High last);
             q_low := round2 (Low last);
             q_volume := volume;
             q_week52_high := round2_if (e_week52_high e);
             q_week52_low := round2_if (e_week52_low e);
             q_pe_ratio := round2_if (e_pe_ratio e);
             q_pre_market_price := (e_pre_market e).1.1;
             q_pre_market_change := (e_pre_market e).1.2;
             q_pre_market_change_pct := (e_pre_market e).2;
             q_post_market_price := (e_post_market e).1.1;
             q_post_market_change := (e_post_market e).1.2;
             q_post_market_change_pct := (e_post_market e).2;
             q_updated := now |})
    | Raise _ => Ok None
    end.
Proof.
  intros Hhist Hrows. simpl.
  unfold get_quote, get_quote_body. rewrite Hhist. simpl. rewrite Hrows.
  rewrite decide_False by (by destruct bars).
  rewrite iloc_last. simpl.
  destruct bars as [|b bars _] using rev_ind.
  - simpl. by destruct (has_volume hist); [destruct (to_int (Volume last))|].
  - rewrite decide_True by (rewrite !length_app; simpl; lia).
    rewrite <- app_assoc. simpl. rewrite iloc_before_last. simpl.
    unfold previous_close. rewrite last_snoc.
    by destruct (has_volume hist); [destruct (to_int (Volume last))|].
Qed.

Lemma get_quote_no_history (yf : Provider F) (now ticker : string) :
  (∃ e, history (yf ticker) = Raise e)
  ∨ (∃ hist, history (yf ticker) = Ok hist ∧ rows hist = []) →
  get_quote yf now ticker = Ok None.
Proof.
  unfold get_quote, get_quote_body.
  intros [[e ->]|(hist & -> & Hrows)]; simpl; [done|].
  by rewrite decide_True.
Qed.

(** [get_quote] catches whatever its body raises. *)
Lemma get_quote_returns (yf : Provider F) (now ticker : string) :
  ∃ r, get_quote yf now ticker = Ok r.
Proof.
  unfold get_quote, try_except.
  destruct (get_quote_body yf now ticker) as [r|e]; by eexists.
Qed.

(** A quote comes from a history with a last bar. *)
Lemma get_quote_some (yf : Provider F) (now ticker : string) (q : Quote F) :
  get_quote yf now ticker = Ok (Some q) →
  ∃ hist bars last, history (yf ticker) = Ok hist ∧ rows hist = bars ++ [last].
Proof.
  intros Hq. destruct (history (yf ticker)) as [hist|e] eqn:Hhist.
  - destruct (rows hist) as [|b bars _] eqn:Hrows using rev_ind.
    + rewrite get_quote_no_history in Hq; [done|]. right. by exists hist.
    + by exists hist, bars, b.
  - rewrite get_quote_no_history in Hq; [done|]. left. by exists e.
Qed.

Lemma extended_hours_cases (current_price : F) (x_price : option F) :
  extended_hours current_price x_price =
    match x_price with
    | Some p =>
        if gt0 p then
          (Some (round2 p),
           Some (round2 (change_against current_price p)),
           Some (round2 (change_pct_against current_price p)))
        else (None, None, None)
    | None => (None, None, None)
    end.
Proof.
  unfold extended_hours. destruct x_price as [p|]; [|done].
  destruct (gt0 p) eqn:Hp.
  - by rewrite (gt0_truthy p Hp).
  - by rewrite andb_false_r.
Qed.

Lemma enrich_extended_hours (t : Ticker F) (ticker : string) (current_price : F) :
  e_pre_market (enrich t ticker current_price)
    = extended_hours current_price (pre_market t)
  ∧ e_post_market (enrich t ticker current_price)
    = extended_hours current_price (post_market t).
Proof.
  unfold enrich, pre_market, post_market. by destruct (info t).
Qed.

End quote_facts.

Section quote_claims.
Import market_data quote_props.
Context {F : Type} `{PyFloat F}.

(** C6. With an empty history the fetch yields no quote.  With bars in the
    history, a quote has as price the last close, as prev_close the close
    before it (the last close when there is one bar), as change their
    difference and as change_pct the change divided by prev_close times
    100 (0 when prev_close is zero), each rounded to 2 places; and the
    fetch does yield a quote unless the conversion of the volume raises. *)
Theorem get_quote_prices (yf : Provider F) (now ticker : string)
    (hist : DataFrame F) :
  history (yf ticker) = Ok hist →
  (rows hist = [] → get_quote yf now ticker = Ok None)
  ∧ (∀ bars last, rows hist = bars ++ [last] →
       let price := Close last in
       let prev_close := previous_close bars price in
       let change := fsub price prev_close in
       let change_pct :=
         if truthy prev_close then fmul (fdiv change prev_close) (of_int 100)
         else of_int 0 in
       (∀ q, get_quote yf now ticker = Ok (Some q) →
          q_price q = round2 price
          ∧ q_prev_close q = round2 prev_close
          ∧ q_change q = round2 change
          ∧ q_change_pct q = round2 change_pct)
       ∧ ((has_volume hist = true → ∃ v, to_int (Volume last) = Ok v) →
          fetched yf now ticker)).
Proof.
  intros Hhist. split.
  { intros Hrows. apply get_quote_no_history. right. by exists hist. }
  intros bars last Hrows. simpl.
  rewrite (get_quote_rows yf now ticker hist bars last Hhist Hrows). simpl.
  split.
  - intros q Hq.
    destruct (if has_volume hist then to_int (Volume last) else Ok 0)
      as [volume|e]; [|done].
    injection Hq as <-. done.
  - intros Hvol. unfold fetched.
    rewrite (get_quote_rows yf now ticker hist bars last Hhist Hrows). simpl.
    destruct (has_volume hist); [|by eexists].
    destruct Hvol as [v ->]; [done|]. by eexists.
Qed.

(** C7. In a quote, the three pre-market fields are set exactly when the
    provider's pre-market price is there and positive; they are then the
    price, its change and its change in percent against the last close,
    each rounded to 2 places.  The same holds of the post-market fields.
    When the request for the enrichment data fails, all six are [None],
    and the fetch yields a quote all the same: whether it does depends on
    the history alone. *)
Theorem get_quote_extended_hours (yf : Provider F) (now ticker : string)
    (q : Quote F) :
  get_quote yf now ticker = Ok (Some q) →
  ∃ hist bars last,
    history (yf ticker) = Ok hist ∧ rows hist = bars ++ [last]
    ∧ (let set := ∃ p, pre_market (yf ticker) = Some p ∧ gt0 p = true in
       (q_pre_market_price q ≠ None ↔ set)
       ∧ (q_pre_market_change q ≠ None ↔ set)
       ∧ (q_pre_market_change_pct q ≠ None ↔ set))
    ∧ (∀ p, pre_market (yf ticker) = Some p → gt0 p = true →
         q_pre_market_price q = Some (round2 p)
         ∧ q_pre_market_change q
           = Some (round2 (change_against (Close last) p))
         ∧ q_pre_market_change_pct q
           = Some (round2 (change_pct_against (Close last) p)))
    ∧ (let set := ∃ p, post_market (yf ticker) = Some p ∧ gt0 p = true in
       (q_post_market_price q ≠ None ↔ set)
       ∧ (q_post_market_change q ≠ None ↔ set)
       ∧ (q_post_market_change_pct q ≠ None ↔ set))
    ∧ (∀ p, post_market (yf ticker) = Some p → gt0 p = true →
         q_post_market_price q = Some (round2 p)
         ∧ q_post_market_change q
           = Some (round2 (change_against (Close last) p))
         ∧ q_post_market_change_pct q
           = Some (round2 (change_pct_against (Close last) p)))
    ∧ (∀ e, info (yf ticker) = Raise e →
         q_pre_market_price q = None ∧ q_pre_market_change q = None
         ∧ q_pre_market_change_pct q = None
         ∧ q_post_market_price q = None ∧ q_post_market_change q = None
         ∧ q_post_market_change_pct q = None)
    ∧ (∀ yf' : Provider F, history (yf' ticker) = history (yf ticker) →
         fetched yf' now ticker).
Proof.
  intros Hq.
  destruct (get_quote_some yf now ticker q Hq) as (hist & bars & last & Hhist & Hrows).
  exists hist, bars, last. split; [done|]. split; [done|].
  pose proof Hq as Hq'.
  rewrite (get_quote_rows yf now ticker hist bars last Hhist Hrows) in Hq'.
  simpl in Hq'.
  destruct (if has_volume hist then to_int (Volume last) else Ok 0)
    as [volume|e] eqn:Hvol; [|done].
  injection Hq' as <-. simpl.
  destruct (enrich_extended_hours (yf ticker) ticker (Close last)) as [-> ->].
  rewrite !extended_hours_cases.
  assert (∀ x : option F,
    let fields := match x with
                  | Some p =>
                      if gt0 p then
                        (Some (round2 p),
                         Some (round2 (change_against (Close last) p)),
                         Some (round2 (change_pct_against (Close last) p)))
                      else (None, None, None)
                  | None => (None, None, None)
                  end in
    let set := ∃ p, x = Some p ∧ gt0 p = true in
    ((fields.1.1 ≠ None ↔ set) ∧ (fields.1.2 ≠ None ↔ set)
     ∧ (fields.2 ≠ None ↔ set))
    ∧ (∀ p, x = Some p → gt0 p = true →
         fields.1.1 = Some (round2 p)
         ∧ fields.1.2 = Some (round2 (change_against (Close last) p))
         ∧ fields.2 = Some (round2 (change_pct_against (Close last) p))))
    as Hfields.
  { intros [p|]; simpl.
    - destruct (gt0 p) eqn:Hp; simpl.
      + split.
        * repeat split; try done; intros _; by exists p.
        * intros p' [= <-] _. done.
      + split.
        * repeat split; try done; intros (p' & [= <-] & Hp'); congruence.
        * intros p' [= <-] Hp'. congruence.
    - split.
      + repeat split; try done; intros (p' & Hp' & _); done.
      + done. }
  destruct (Hfields (pre_market (yf ticker))) as [Hpre_set Hpre_val].
  destruct (Hfields (post_market (yf ticker))) as [Hpost_set Hpost_val].
  split; [exact Hpre_set|]. split; [exact Hpre_val|].
  split; [exact Hpost_set|]. split; [exact Hpost_val|]. split.
  - intros e Hinfo. unfold pre_market, post_market. by rewrite Hinfo.
  - intros yf' Hsame. unfold fetched.
    rewrite (get_quote_rows yf' now ticker hist bars last); [|congruence|done].
    simpl. rewrite Hvol. by eexists.
Qed.

End quote_claims.

(** ** Bulk quotes *)

Section bulk_facts.
Import market_data quote_props.
Context {F : Type} `{PyFloat F}.

Lemma collect_fold_lookup (futures : list (py (option (Quote F)) * string))
    (results : gmap string (Quote F)) (k : string) (q : Quote F) :
  fold_left collect futures results !! k = Some q →
  results !! k = Some q
  ∨ ∃ f, f ∈ futures ∧ f.1 = Ok (Some q) ∧ upper f.2 = k.
Proof.
  revert results. induction futures as [|f futures IH]; intros results; simpl.
  { by left. }
  intros [Hr|(f' & Hf' & Hq & Hk)]%IH.
  - unfold collect in Hr. destruct f.1 as [[data|]|e] eqn:Hf; try by left.
    destruct (decide (upper f.2 = k)) as [Hk|Hk].
    + rewrite Hk, lookup_insert_eq in Hr. injection Hr as ->.
      right. exists f. split; [by left|done].
    + rewrite lookup_insert_ne in Hr by done. by left.
  - right. exists f'. split; [by right|done].
Qed.

Lemma collect_fold_dom (futures : list (py (option (Quote F)) * string))
    (results : gmap string (Quote F)) (k : string) :
  is_Some (results !! k)
  ∨ (∃ f q, f ∈ futures ∧ f.1 = Ok (Some q) ∧ upper f.2 = k) →
  is_Some (fold_left collect futures results !! k).
Proof.
  revert results. induction futures as [|f futures IH]; intros results; simpl.
  { intros [Hr|(f & q & Hf & _)]; [done|by apply elem_of_nil in Hf]. }
  intros [Hr|(f' & q & [->|Hf']%elem_of_cons & Hq & Hk)]; apply IH.
  - left. unfold collect. destruct f.1 as [[data|]|e]; try done.
    destruct (decide (upper f.2 = k)) as [<-|Hk].
    + by rewrite lookup_insert_eq.
    + by rewrite lookup_insert_ne.
  - left. unfold collect. rewrite Hq, Hk. by rewrite lookup_insert_eq.
  - right. by exists f', q.
Qed.

Variable as_completed : list (py (option (Quote F)) * string)
                        → list (py (option (Quote F)) * string).

(** C5. Whatever order the fetches finish in, [get_bulk_quotes] returns
    (it does not raise) a map whose keys are exactly the upper-cased input
    tickers whose fetch produced a quote, each with a quote of such a
    ticker.  A fetch that fails - a provider error, an empty history, a
    volume that does not convert - produces none, so that ticker
    contributes no key. *)
Theorem get_bulk_quotes_keys (yf : Provider F) (now : string)
    (tickers : list string) :
  (∀ l, as_completed l ≡ₚ l) →
  ∃ results,
    get_bulk_quotes as_completed yf now tickers = Ok results
    ∧ (∀ k, k ∈ dom results ↔
            ∃ t, t ∈ tickers ∧ upper t = k ∧ fetched yf now t)
    ∧ (∀ k q, results !! k = Some q →
              ∃ t, t ∈ tickers ∧ upper t = k
                   ∧ get_quote yf now t = Ok (Some q))
    ∧ (∀ t,
         (∃ e, history (yf t) = Raise e)
         ∨ (∃ hist, history (yf t) = Ok hist ∧ rows hist = [])
         ∨ (∃ hist bars last e,
              history (yf t) = Ok hist ∧ rows hist = bars ++ [last]
              ∧ has_volume hist = true ∧ to_int (Volume last) = Raise e) →
         ¬ fetched yf now t).
Proof.
  intros Hperm. unfold get_bulk_quotes. eexists. split; [reflexivity|].
  set (futures := (λ t, (get_quote yf now t, t)) <$> tickers).
  assert (∀ f, f ∈ as_completed futures ↔
               ∃ t, t ∈ tickers ∧ f = (get_quote yf now t, t)) as Hfut.
  { intros f. rewrite (Hperm futures). unfold futures.
    rewrite list_elem_of_fmap. split.
    - intros (t & -> & Ht). by exists t.
    - intros (t & Ht & ->). by exists t. }
  split; [|split].
  - intros k. rewrite elem_of_dom. split.
    + intros [q Hq]. apply collect_fold_lookup in Hq as [Hq|(f & Hf & Hq & Hk)].
      { by rewrite lookup_empty in Hq. }
      apply Hfut in Hf as (t & Ht & ->). exists t. split; [done|].
      split; [done|]. by exists q.
    + intros (t & Ht & Hk & q & Hq). apply collect_fold_dom. right.
      exists (get_quote yf now t, t), q. split; [|done].
      apply Hfut. by exists t.
  - intros k q Hq. apply collect_fold_lookup in Hq as [Hq|(f & Hf & Hq & Hk)].
    { by rewrite lookup_empty in Hq. }
    apply Hfut in Hf as (t & Ht & ->). by exists t.
  - intros t Hfail [q Hq].
    destruct Hfail as [Hraise|[Hempty|(hist & bars & last & e & Hhist & Hrows & Hvol & Hint)]].
    + rewrite get_quote_no_history in Hq; [done|by left].
    + rewrite get_quote_no_history in Hq; [done|by right].
    + rewrite (get_quote_rows yf now t hist bars last Hhist Hrows) in Hq.
      simpl in Hq. by rewrite Hvol, Hint in Hq.
Qed.

End bulk_facts.

Section quote_witnesses.
Import market_data quote_props decimal.

Lemma get_bulk_quotes_keys_witness :
  (∀ l : list (py (option (Quote Q)) * string), reverse l ≡ₚ l)
  ∧ ∃ results,
      get_bulk_quotes reverse sample_provider "2026-01-02 10:00:00"
        ["AAPL"; "BOGUS123"] = Ok results
      ∧ "AAPL" ∈ dom results ∧ "BOGUS123" ∉ dom results.
Proof.
  assert (∀ l : list (py (option (Quote Q)) * string), reverse l ≡ₚ l) as Hperm.
  { intros l. apply reverse_Permutation. }
  split; [done|].
  destruct (get_bulk_quotes_keys reverse sample_provider "2026-01-02 10:00:00"
              ["AAPL"; "BOGUS123"] Hperm) as (results & Hrun & Hkeys & _ & Hfail).
  exists results. split; [done|]. split.
  - apply Hkeys. exists "AAPL". split; [by left|]. split; [done|].
    unfold fetched. eexists. by vm_compute.
  - intros (t & Ht & Hk & Hq)%Hkeys.
    apply elem_of_cons in Ht as [->|Ht]; [done|].
    apply list_elem_of_singleton in Ht as ->.
    apply (Hfail "BOGUS123"); [|done]. left. by exists Exception.
Defined.

Lemma get_quote_prices_witness :
  ∃ q, get_quote sample_provider "2026-01-02 10:00:00" "AAPL" = Ok (Some q)
       ∧ q_price q = round2 (110557 # 1000)
       ∧ q_prev_close q = round2 (100 # 1)
       ∧ q_change q = round2 (fsub (110557 # 1000) (100 # 1))
       ∧ q_change_pct q
         = round2 (fmul (fdiv (fsub (110557 # 1000) (100 # 1)) (100 # 1))
                        (of_int 100)).
Proof.
  destruct (get_quote_prices sample_provider "2026-01-02 10:00:00" "AAPL"
              {| rows := [ bar (100 # 1) (101 # 1) (99 # 1) (5 # 1);
                           bar (110557 # 1000) (111 # 1) (109 # 1) (1234567 # 1) ];
                 has_volume := true |} eq_refl) as [_ Hbars].
  destruct (Hbars [bar (100 # 1) (101 # 1) (99 # 1) (5 # 1)]
                  (bar (110557 # 1000) (111 # 1) (109 # 1) (1234567 # 1))
                  eq_refl) as [Hfields Hsome].
  destruct Hsome as [q Hq]; [intros _; by eexists|].
  exists q. split; [done|]. by apply Hfields.
Defined.

Lemma get_quote_extended_hours_witness :
  ∃ q, get_quote sample_provider "2026-01-02 10:00:00" "AAPL" = Ok (Some q)
       ∧ q_pre_market_price q = Some (round2 (111 # 1))
       ∧ q_pre_market_change q
         = Some (round2 (change_against (110557 # 1000) (111 # 1)))
       ∧ q_post_market_price q = None.
Proof.
  assert (∃ q, get_quote sample_provider "2026-01-02 10:00:00" "AAPL"
               = Ok (Some q)) as [q Hq] by (eexists; by vm_compute).
  exists q. split; [done|].
  destruct (get_quote_extended_hours sample_provider "2026-01-02 10:00:00"
              "AAPL" q Hq)
    as (hist & bars & last & Hhist & Hrows & _ & Hpre & Hpost & _).
  assert (Close last = (110557 # 1000)) as Hlast.
  { vm_compute in Hhist. injection Hhist as <-.
    change (rows _) with ([bar (100 # 1) (101 # 1) (99 # 1) (5 # 1)]
      ++ [bar (110557 # 1000) (111 # 1) (109 # 1) (1234567 # 1)]) in Hrows.
    by apply app_inj_tail in Hrows as [_ <-]. }
  destruct (Hpre (111 # 1)) as (Hp & Hc & _); [by vm_compute..|].
  rewrite Hlast in Hc. split; [done|]. split; [done|].
  destruct Hpost as (Hnone & _).
  destruct (q_post_market_price q) as [x|]; [|done].
  destruct Hnone as [(p & Hp' & Hgt) _]; [done|].
  vm_compute in Hp'. injection Hp' as <-. done.
Defined.

End quote_witnesses.

(** * Further properties *)

(** ** Removing a ticker *)

Section remove_ticker_facts.
Import database props store_props.

Lemma store_eta (s : Store) :
  {| tabs := tabs s; watchlist := watchlist s;
     tabs_seq := tabs_seq s; watchlist_seq := watchlist_seq s |} = s.
Proof. by destruct s. Qed.

Lemma filter_filter_weaker {A} (P Q : A → Prop) `{!∀ x, Decision (P x)}
    `{!∀ x, Decision (Q x)} (l : list A) :
  (∀ x, x ∈ l → P x → Q x) → filter P (filter Q l) = filter P l.
Proof.
  induction l as [|x l IH]; intros Himpl; [done|].
  rewrite !filter_cons.
  assert (filter P (filter Q l) = filter P l) as IH'
    by (apply IH; intros y Hy; apply Himpl; by right).
  destruct (decide (Q x)) as [HQ|HQ].
  - rewrite filter_cons. destruct (decide (P x)); by rewrite IH'.
  - rewrite decide_False; [done|]. intros HP. apply HQ, Himpl; [by left|done].
Qed.

Lemma remove_ticker_rows (s : Store) (tab_id : Z) (ticker : string) :
  remove_ticker s tab_id ticker =
    (bool_decide (0 < length (filter (hit tab_id ticker) (watchlist s)))%nat,
     {| tabs := tabs s;
        watchlist := filter (λ e, ¬ hit tab_id ticker e) (watchlist s);
        tabs_seq := tabs_seq s;
        watchlist_seq := watchlist_seq s |}).
Proof. reflexivity. Qed.

Lemma hit_same (tab_id : Z) (t1 t2 : string) (e : Entry) :
  normalize t2 = normalize t1 → hit tab_id t2 e ↔ hit tab_id t1 e.
Proof. unfold hit. by intros ->. Qed.

(** [remove_ticker] returns true exactly when the tab holds the ticker in
    its stored form; it deletes that row and no other; afterwards the tab
    no longer holds the ticker, so a second removal returns false; and a
    removal that returns false leaves the store as it was. *)
Theorem remove_ticker_removes (s : Store) (tab_id : Z) (ticker : string) :
  let r := remove_ticker s tab_id ticker in
  (r.1 = true ↔ pair_exists s tab_id (normalize ticker))
  ∧ tabs r.2 = tabs s
  ∧ watchlist r.2 = filter (λ e, ¬ hit tab_id ticker e) (watchlist s)
  ∧ ¬ pair_exists r.2 tab_id (normalize ticker)
  ∧ remove_ticker r.2 tab_id ticker = (false, r.2)
  ∧ (r.1 = false → r.2 = s).
Proof.
  assert (∀ s0, ¬ pair_exists s0 tab_id (normalize ticker) →
                remove_ticker s0 tab_id ticker = (false, s0)) as Hnone.
  { intros s0 Hno. unfold remove_ticker. fold (normalize ticker).
    rewrite filter_none, filter_all.
    - by rewrite store_eta.
    - apply Forall_forall. intros e He [Htab Htk]. apply Hno. by exists e.
    - apply Forall_forall. intros e He [Htab Htk]. apply Hno. by exists e. }
  assert ((remove_ticker s tab_id ticker).1 = true
          ↔ pair_exists s tab_id (normalize ticker)) as Hiff.
  { unfold remove_ticker. fold (normalize ticker). simpl.
    rewrite bool_decide_eq_true. split.
    - intros Hlen.
      destruct (filter _ (watchlist s)) as [|e l] eqn:Hf; [simpl in Hlen; lia|].
      assert (e ∈ filter (λ e, w_tab_id e = tab_id ∧ w_ticker e = normalize ticker)
                (watchlist s)) as [[Htab Htk] He]%list_elem_of_filter
        by (rewrite Hf; by left).
      by exists e.
    - intros (e & He & Htab & Htk).
      assert (e ∈ filter (λ e, w_tab_id e = tab_id ∧ w_ticker e = normalize ticker)
                (watchlist s)) as Hin by by apply list_elem_of_filter.
      destruct (filter _ (watchlist s)); [by apply elem_of_nil in Hin|simpl; lia]. }
  assert (¬ pair_exists (remove_ticker s tab_id ticker).2 tab_id
            (normalize ticker)) as Hgone.
  { intros (e & He & Htab & Htk). simpl in He.
    apply list_elem_of_filter in He as [Hno _]. by apply Hno. }
  intros r. subst r.
  split; [exact Hiff|]. split; [done|]. split; [done|]. split; [exact Hgone|].
  split; [by apply Hnone|].
  intros Hfalse.
  assert (¬ pair_exists s tab_id (normalize ticker)) as Hno.
  { intros Hex. apply Hiff in Hex. congruence. }
  by rewrite (Hnone s Hno).
Qed.

(** Adding a ticker and removing it again, under any spelling with the
    same stored form, gives back both tables; only the AUTOINCREMENT
    counter has moved on. *)
Theorem add_then_remove (s s1 : Store) (tab_id : Z) (t1 t2 name : string)
    (now : Z) :
  add_ticker s tab_id t1 name now = Ok (true, s1) →
  normalize t2 = normalize t1 →
  (remove_ticker s1 tab_id t2).1 = true
  ∧ tabs (remove_ticker s1 tab_id t2).2 = tabs s
  ∧ watchlist (remove_ticker s1 tab_id t2).2 = watchlist s
  ∧ tabs_seq (remove_ticker s1 tab_id t2).2 = tabs_seq s
  ∧ watchlist_seq s < watchlist_seq (remove_ticker s1 tab_id t2).2.
Proof.
  intros Hadd Hsame.
  destruct (add_ticker_cases s tab_id t1 name now) as [[Hr _]|[Hr [Hno Hex]]];
    rewrite Hr in Hadd; [done|]. injection Hadd as <-.
  assert (filter (hit tab_id t2) (watchlist s) = []) as Hnone.
  { apply filter_none, Forall_forall. intros e He [Htab Htk]. apply Hno.
    exists e. by rewrite <- Hsame. }
  assert (filter (λ e, ¬ hit tab_id t2 e) (watchlist s) = watchlist s) as Hall.
  { apply filter_all, Forall_forall. intros e He [Htab Htk]. apply Hno.
    exists e. by rewrite <- Hsame. }
  rewrite remove_ticker_rows. unfold append_watchlist. simpl.
  rewrite !filter_app, Hnone, Hall, !filter_cons.
  rewrite (decide_True (P := hit tab_id t2 _)) by (by split).
  rewrite (decide_False (P := ¬ hit tab_id t2 _))
    by (intros Hn; apply Hn; by split).
  simpl. rewrite app_nil_r. split; [done|]. split; [done|]. split; [done|].
  split; [done|]. apply (proj1 (next_rowid_fresh _ _)).
Qed.

Lemma add_then_remove_witness :
  ∃ s1, add_ticker fresh_install 1 "spy" "S&P 500" 5 = Ok (true, s1)
    ∧ (remove_ticker s1 1 " SPY").1 = true
    ∧ watchlist (remove_ticker s1 1 " SPY").2 = watchlist fresh_install.
Proof.
  destruct (add_ticker_cases fresh_install 1 "spy" "S&P 500" 5)
    as [[_ [Hpair|Htab]]|[Hadd _]].
  - exfalso. apply unique_violation_spec in Hpair. by vm_compute in Hpair.
  - exfalso. apply fk_violation_spec in Htab. by vm_compute in Htab.
  - eexists. split; [exact Hadd|].
    destruct (add_then_remove fresh_install _ 1 "spy" " SPY" "S&P 500" 5 Hadd)
      as (Hok & _ & Hw & _); [by vm_compute|].
    split; [exact Hok|exact Hw].
Defined.

End remove_ticker_facts.

(** ** Sorting commutes with a change of rows that keeps the sort keys *)

Section merge_sort_fmap.
Import store_props.
Context {A B : Type} (R : relation A) (R' : relation B).
Context `{!RelDecision R, !RelDecision R'} (f : A → B).
Hypothesis keys_kept : ∀ x y, R' (f x) (f y) ↔ R x y.

Lemma list_merge_fmap (l1 l2 : list A) :
  list_merge R' (f <$> l1) (f <$> l2) = f <$> list_merge R l1 l2.
Proof.
  revert l2. induction l1 as [|x1 l1 IH1]; intros l2; [by destruct l2|].
  induction l2 as [|x2 l2 IH2]; [done|].
  rewrite !fmap_cons, !list_merge_cons.
  destruct (decide (R x1 x2)) as [Hx|Hx].
  - rewrite decide_True by (by apply keys_kept).
    rewrite fmap_cons. f_equal. rewrite <- IH1. by rewrite fmap_cons.
  - rewrite decide_False by (by rewrite keys_kept).
    rewrite fmap_cons. f_equal. rewrite <- IH2. by rewrite fmap_cons.
Qed.

Lemma merge_list_to_stack_fmap (st : list (option (list A))) (l : list A) :
  merge_list_to_stack R' (stack_fmap f st) (f <$> l)
  = stack_fmap f (merge_list_to_stack R st l).
Proof.
  revert l. induction st as [|[l'|] st IH]; intros l; [done| |done].
  unfold stack_fmap in *. csimpl. f_equal. by rewrite list_merge_fmap, IH.
Qed.

Lemma merge_stack_fmap (st : list (option (list A))) :
  merge_stack R' (stack_fmap f st) = f <$> merge_stack R st.
Proof.
  unfold stack_fmap.
  induction st as [|[l'|] st IH]; csimpl; [done| |done].
  by rewrite IH, list_merge_fmap.
Qed.

Lemma merge_sort_aux_fmap (st : list (option (list A))) (l : list A) :
  merge_sort_aux R' (stack_fmap f st) (f <$> l)
  = f <$> merge_sort_aux R st l.
Proof.
  revert st. induction l as [|x l IH]; intros st; csimpl.
  - apply merge_stack_fmap.
  - rewrite <- IH. f_equal.
    by rewrite <- (merge_list_to_stack_fmap st [x]).
Qed.

Lemma merge_sort_fmap (l : list A) :
  merge_sort R' (f <$> l) = f <$> merge_sort R l.
Proof. apply (merge_sort_aux_fmap []). Qed.

End merge_sort_fmap.

(** ** The two listings *)

Section listing_more.
Import database props store_props.

#[local] Instance watchlist_order_trans' : Transitive watchlist_order.
Proof. intros a b c. unfold watchlist_order. lia. Qed.
#[local] Instance watchlist_order_total' : Total watchlist_order.
Proof. intros a b. unfold watchlist_order. lia. Qed.
#[local] Instance tabs_order_trans : Transitive tabs_order.
Proof. intros a b c. unfold tabs_order. lia. Qed.
#[local] Instance tabs_order_total : Total tabs_order.
Proof. intros a b. unfold tabs_order. lia. Qed.

Lemma NoDup_fmap_elem_inj {A B} (f : A → B) (l : list A) (x y : A) :
  NoDup (f <$> l) → x ∈ l → y ∈ l → f x = f y → x = y.
Proof.
  intros Hnd [i Hi]%list_elem_of_lookup [j Hj]%list_elem_of_lookup Heq.
  assert (i = j); [|congruence].
  apply (NoDup_lookup (f <$> l) i j (f x) Hnd);
    rewrite list_lookup_fmap; [by rewrite Hi|by rewrite Hj, Heq].
Qed.

(** [get_tabs] lists every tab once, by increasing [sort_order] and, on
    equal [sort_order], increasing id; with ids unique the listing does
    not depend on the order of the rows in the table. *)
Theorem get_tabs_listing (s : Store) :
  get_tabs s ≡ₚ tab_dict <$> tabs s
  ∧ StronglySorted dict_order (get_tabs s)
  ∧ (∀ s', NoDup (t_id <$> tabs s) → tabs s' ≡ₚ tabs s →
           get_tabs s' = get_tabs s).
Proof.
  change (get_tabs s) with (tab_dict <$> merge_sort tabs_order (tabs s)).
  split; [by rewrite merge_sort_Permutation|]. split.
  - apply (StronglySorted_fmap _ tabs_order); [done|].
    apply (StronglySorted_merge_sort _).
  - intros s' Hpk Hperm.
    change (get_tabs s') with (tab_dict <$> merge_sort tabs_order (tabs s')).
    f_equal. apply (StronglySorted_unique_strong tabs_order).
    + intros x y Hx Hy Hxy Hyx. rewrite merge_sort_Permutation in Hx, Hy.
      rewrite Hperm in Hx.
      apply (NoDup_fmap_elem_inj t_id (tabs s)); [done..|].
      unfold tabs_order in *. lia.
    + apply (StronglySorted_merge_sort _).
    + apply (StronglySorted_merge_sort _).
    + by rewrite !merge_sort_Permutation.
Qed.

Lemma get_tabs_listing_witness :
  NoDup (t_id <$> tabs fresh_install)
  ∧ get_tabs {| tabs := reverse (tabs fresh_install);
                watchlist := watchlist fresh_install;
                tabs_seq := tabs_seq fresh_install;
                watchlist_seq := watchlist_seq fresh_install |}
    = get_tabs fresh_install.
Proof.
  assert (NoDup (t_id <$> tabs fresh_install)) as Hpk.
  { apply (bool_decide_unpack _). by vm_compute. }
  split; [done|].
  destruct (get_tabs_listing fresh_install) as (_ & _ & Hsame).
  apply Hsame; [done|]. apply reverse_Permutation.
Defined.

(** [get_watchlist] lists the rows of the tab and no other, each once, by
    increasing [sort_order] and, on equal [sort_order], increasing
    [added_at]; for an id without rows the list is empty. *)
Theorem get_watchlist_listing (s : Store) (tab_id : Z) :
  (∃ rows, get_watchlist s tab_id = watch_dict <$> rows
           ∧ rows ≡ₚ entries_of s tab_id
           ∧ StronglySorted watchlist_order rows)
  ∧ Forall (λ d, wd_tab_id d = tab_id) (get_watchlist s tab_id)
  ∧ (¬ tab_exists s tab_id →
     (∀ e, e ∈ watchlist s → tab_exists s (w_tab_id e)) →
     get_watchlist s tab_id = []).
Proof.
  split; [|split].
  - exists (merge_sort watchlist_order (entries_of s tab_id)).
    split; [done|]. split; [apply merge_sort_Permutation|].
    apply (StronglySorted_merge_sort _).
  - apply Forall_forall. intros d (e & -> & He)%list_elem_of_fmap.
    rewrite merge_sort_Permutation in He.
    by apply list_elem_of_filter in He as [? _].
  - intros Hno Hfk. unfold get_watchlist. rewrite filter_none; [done|].
    apply Forall_forall. intros e He Htab. apply Hno. rewrite <- Htab. by apply Hfk.
Qed.

(** In a sorted list, an element that nothing else may follow is last. *)
Lemma sorted_greatest_last {A} (R : relation A) (L W : list A) (x : A) :
  StronglySorted R L → L ≡ₚ W ++ [x] → (∀ y, y ∈ W → ¬ R x y) →
  last L = Some x.
Proof.
  intros Hsorted. revert W.
  induction Hsorted as [|a L HL IH Ha]; intros W Hperm Hgt.
  { apply Permutation_nil in Hperm. by destruct W. }
  assert (a ∈ W ++ [x]) as [Ha'|Ha']%elem_of_app by (rewrite <- Hperm; by left).
  - apply list_elem_of_split in Ha' as (W1 & W2 & ->).
    assert (L ≡ₚ (W1 ++ W2) ++ [x]) as Hperm'.
    { apply (Permutation_cons_inv (a := a)). rewrite Hperm.
      by rewrite <- (Permutation_middle W1 W2 a). }
    assert (last L = Some x) as Hlast.
    { apply (IH (W1 ++ W2) Hperm'). intros y Hy. apply Hgt.
      apply elem_of_app in Hy as [Hy|Hy]; apply elem_of_app; [by left|].
      right. by right. }
    destruct L as [|b L]; [done|]. by rewrite last_cons_cons.
  - apply list_elem_of_singleton in Ha' as ->.
    assert (L ≡ₚ W) as Hperm'.
    { apply (Permutation_cons_inv (a := x)). rewrite Hperm.
      by rewrite Permutation_app_comm. }
    destruct L as [|b L]; [done|].
    exfalso. apply (Hgt b).
    + rewrite <- Hperm'. by left.
    + rewrite Forall_forall in Ha. apply Ha. by left.
Qed.

(** A ticker that [add_ticker] accepts is listed last in its tab, after
    the rows the tab had. *)
Theorem add_ticker_listed_last (s s1 : Store) (tab_id : Z)
    (ticker name : string) (now : Z) :
  add_ticker s tab_id ticker name now = Ok (true, s1) →
  ∃ d, last (get_watchlist s1 tab_id) = Some d
       ∧ wd_ticker d = normalize ticker ∧ wd_name d = name
       ∧ wd_tab_id d = tab_id
       ∧ get_watchlist s1 tab_id ≡ₚ get_watchlist s tab_id ++ [d].
Proof.
  intros Hadd.
  destruct (add_ticker_cases s tab_id ticker name now) as [[Hr _]|[Hr [Hno Hex]]];
    rewrite Hr in Hadd; [done|]. injection Hadd as <-.
  set (e := {| w_id := next_rowid (watchlist_seq s) (w_id <$> watchlist s);
               w_tab_id := tab_id; w_ticker := normalize ticker;
               w_name := name;
               w_sort_order := COALESCE (sql_max (sort_orders_of s tab_id)) (-1) + 1;
               w_added_at := now |}).
  assert (filter (λ e, w_tab_id e = tab_id)
            (watchlist (append_watchlist s tab_id (normalize ticker) name
               (COALESCE (sql_max (sort_orders_of s tab_id)) (-1) + 1) now))
          = entries_of s tab_id ++ [e]) as Hrows.
  { unfold append_watchlist. simpl. rewrite filter_app, filter_cons.
    by rewrite decide_True. }
  exists (watch_dict e). unfold get_watchlist. rewrite Hrows.
  split; [|split; [done|split; [done|split; [done|]]]].
  - rewrite fmap_last.
    rewrite (sorted_greatest_last watchlist_order _ (entries_of s tab_id) e);
      [done| |apply merge_sort_Permutation|].
    + apply (StronglySorted_merge_sort _).
    + intros y Hy. unfold watchlist_order. simpl.
      pose proof (sql_max_spec (sort_orders_of s tab_id)) as Hmax.
      assert (w_sort_order y ∈ sort_orders_of s tab_id) as Hin
        by by apply list_elem_of_fmap_2.
      destruct (sql_max (sort_orders_of s tab_id)) as [m|]; simpl.
      * destruct Hmax as [_ Hle]. specialize (Hle _ Hin). lia.
      * rewrite Hmax in Hin. by apply elem_of_nil in Hin.
  - rewrite !merge_sort_Permutation. fold (entries_of s tab_id).
    by rewrite fmap_app.
Qed.

Lemma add_ticker_listed_last_witness :
  ∃ s1 d, add_ticker fresh_install 1 "spy" "" 5 = Ok (true, s1)
    ∧ last (get_watchlist s1 1) = Some d ∧ wd_ticker d = "SPY".
Proof.
  destruct (add_ticker_cases fresh_install 1 "spy" "" 5)
    as [[_ [Hpair|Htab]]|[Hadd _]].
  - exfalso. apply unique_violation_spec in Hpair. by vm_compute in Hpair.
  - exfalso. apply fk_violation_spec in Htab. by vm_compute in Htab.
  - destruct (add_ticker_listed_last fresh_install _ 1 "spy" "" 5 Hadd)
      as (d & Hlast & Htk & _).
    eexists _, d. split; [exact Hadd|]. split; [exact Hlast|exact Htk].
Defined.

(** A new tab is listed last. *)
Theorem create_tab_listed_last (s : Store) (name : string) (now : Z) :
  last (get_tabs (create_tab s name now).2) = Some (create_tab s name now).1
  ∧ get_tabs (create_tab s name now).2
    ≡ₚ get_tabs s ++ [(create_tab s name now).1].
Proof.
  rewrite create_tab_row. simpl.
  set (t := {| t_id := next_rowid (tabs_seq s) (t_id <$> tabs s);
               t_name := strip name;
               t_sort_order := COALESCE (sql_max (t_sort_order <$> tabs s)) 0 + 1;
               t_created_at := now |}).
  change {| d_id := _; d_name := _; d_sort_order := _ |} with (tab_dict t).
  unfold get_tabs. simpl. fold t. fold tab_dict. split.
  - rewrite fmap_last.
    rewrite (sorted_greatest_last tabs_order _ (tabs s) t);
      [done| |apply merge_sort_Permutation|].
    + apply (StronglySorted_merge_sort _).
    + intros y Hy. unfold tabs_order. simpl.
      pose proof (sql_max_spec (t_sort_order <$> tabs s)) as Hmax.
      assert (t_sort_order y ∈ t_sort_order <$> tabs s) as Hin
        by by apply list_elem_of_fmap_2.
      destruct (sql_max (t_sort_order <$> tabs s)) as [m|]; simpl.
      * destruct Hmax as [_ Hle]. specialize (Hle _ Hin). lia.
      * rewrite Hmax in Hin. by apply elem_of_nil in Hin.
  - rewrite !merge_sort_Permutation. by rewrite fmap_app.
Qed.

End listing_more.

(** ** Renaming and deleting tabs *)

Section tab_more.
Import database props store_props.

Lemma fmap_unchanged {A} (f : A → A) (l : list A) :
  (∀ x, x ∈ l → f x = x) → f <$> l = l.
Proof.
  induction l as [|x l IH]; intros Hf; csimpl; [done|].
  rewrite Hf by (by left). rewrite IH; [done|].
  intros y Hy. apply Hf. by right.
Qed.

Lemma rowcount_positive {A} (P : A → Prop) `{!∀ x, Decision (P x)} (l : list A) :
  (0 < length (filter P l))%nat ↔ ∃ x, x ∈ l ∧ P x.
Proof.
  split.
  - destruct (filter P l) as [|x l'] eqn:Hf; [simpl; lia|]. intros _.
    assert (x ∈ filter P l) as [HP Hx]%list_elem_of_filter by (rewrite Hf; by left).
    by exists x.
  - intros (x & Hx & HP).
    assert (x ∈ filter P l) as Hin by by apply list_elem_of_filter.
    destruct (filter P l); [by apply elem_of_nil in Hin|simpl; lia].
Qed.

(** [rename_tab] returns true exactly when a tab has the id.  In the
    listing the tab then shows the trimmed name, at the place it had; the
    other tabs and the watchlists stay as they are; a renaming that returns
    false changes nothing. *)
Theorem rename_tab_renames (s : Store) (tab_id : Z) (new_name : string) :
  ((rename_tab s tab_id new_name).1 = true ↔ tab_exists s tab_id)
  ∧ get_tabs (rename_tab s tab_id new_name).2
    = renamed tab_id new_name <$> get_tabs s
  ∧ watchlist (rename_tab s tab_id new_name).2 = watchlist s
  ∧ ((rename_tab s tab_id new_name).1 = false →
     (rename_tab s tab_id new_name).2 = s).
Proof.
  set (f := λ t, if decide (t_id t = tab_id)
                 then set_t_name (strip new_name) t else t).
  assert ((rename_tab s tab_id new_name).1 = true ↔ tab_exists s tab_id) as Hiff.
  { simpl. rewrite bool_decide_eq_true, rowcount_positive.
    unfold tab_exists. done. }
  split; [exact Hiff|]. split; [|split; [done|]].
  - unfold get_tabs. simpl. fold f.
    rewrite (merge_sort_fmap tabs_order tabs_order f).
    + rewrite <- !list_fmap_compose. apply list_fmap_ext. intros _ t _.
      simpl. unfold f, renamed. simpl.
      by destruct (decide (t_id t = tab_id)).
    + intros x y. unfold tabs_order, f.
      by destruct (decide (t_id x = tab_id)), (decide (t_id y = tab_id)).
  - intros Hfalse.
    assert (¬ tab_exists s tab_id) as Hno.
    { intros Hex. apply Hiff in Hex. congruence. }
    unfold rename_tab. simpl. fold f. rewrite fmap_unchanged.
    + apply store_eta.
    + intros t Ht. unfold f. rewrite decide_False; [done|].
      intros Hid. apply Hno. by exists t.
Qed.

(** [delete_tab] for an id that no tab has returns false and changes
    nothing, however many tabs there are: the caller cannot tell this from
    the refusal to delete the last tab. *)
Theorem delete_tab_unknown (s : Store) (tab_id : Z) :
  ¬ tab_exists s tab_id → delete_tab s tab_id = (false, s).
Proof.
  intros Hno. unfold delete_tab.
  destruct (decide (length (tabs s) <= 1)%nat); [done|].
  unfold delete_from_tabs.
  assert (filter (λ t, t_id t = tab_id) (tabs s) = []) as ->.
  { apply filter_none, Forall_forall. intros t Ht Hid. apply Hno. by exists t. }
  rewrite filter_all.
  - simpl. by rewrite store_eta.
  - apply Forall_forall. intros t Ht Hid. apply Hno. by exists t.
Qed.

Lemma delete_tab_unknown_witness :
  ¬ tab_exists fresh_install 99
  ∧ delete_tab fresh_install 99 = (false, fresh_install).
Proof.
  assert (¬ tab_exists fresh_install 99) as Hno.
  { apply fk_violation_spec. by vm_compute. }
  split; [done|]. by apply delete_tab_unknown.
Defined.

(** No operation on one tab changes what another tab lists: adding,
    removing and reordering tickers, deleting the tab, and creating or
    renaming any tab. *)
Theorem other_tabs_untouched (s : Store) (tab_id other : Z) :
  other ≠ tab_id →
  (∀ ticker name now r,
     add_ticker s tab_id ticker name now = Ok r →
     get_watchlist r.2 other = get_watchlist s other)
  ∧ (∀ ticker, get_watchlist (remove_ticker s tab_id ticker).2 other
               = get_watchlist s other)
  ∧ (∀ tickers, get_watchlist (reorder_watchlist s tab_id tickers).2 other
                = get_watchlist s other)
  ∧ get_watchlist (delete_tab s tab_id).2 other = get_watchlist s other
  ∧ (∀ name now, get_watchlist (create_tab s name now).2 other
                 = get_watchlist s other)
  ∧ (∀ id new_name, get_watchlist (rename_tab s id new_name).2 other
                    = get_watchlist s other).
Proof.
  intros Hne.
  assert (∀ s', entries_of s' other = entries_of s other →
                get_watchlist s' other = get_watchlist s other) as Hsame.
  { intros s' Heq. unfold get_watchlist. fold (entries_of s' other).
    fold (entries_of s other). by rewrite Heq. }
  split; [|split; [|split; [|split; [|split]]]].
  - intros ticker name now r Hadd.
    destruct (add_ticker_cases s tab_id ticker name now) as [[Hr _]|[Hr _]];
      rewrite Hr in Hadd; injection Hadd as <-; [done|].
    apply Hsame. unfold entries_of, append_watchlist. simpl.
    rewrite filter_app, filter_cons, decide_False by (simpl; congruence).
    by rewrite app_nil_r.
  - intros ticker. apply Hsame. rewrite remove_ticker_rows. unfold entries_of.
    simpl. apply filter_filter_weaker. intros e He Htab [Htab' _]. congruence.
  - intros tickers. apply Hsame. rewrite reorder_watchlist_rows.
    unfold entries_of. simpl. rewrite filter_reordered.
    apply fmap_unchanged. intros e [Htab _]%list_elem_of_filter.
    unfold reordered. rewrite decide_False; [done|congruence].
  - apply Hsame. unfold delete_tab.
    destruct (decide (length (tabs s) <= 1)%nat); [done|].
    unfold entries_of. simpl. destruct (decide _); [done|].
    apply filter_filter_weaker. intros e He Htab. congruence.
  - intros name now. by apply Hsame.
  - intros id new_name. by apply Hsame.
Qed.

Lemma other_tabs_untouched_witness :
  get_watchlist (delete_tab fresh_install 2).2 1 = get_watchlist fresh_install 1.
Proof.
  assert (1 ≠ 2) as Hne by lia.
  destruct (other_tabs_untouched fresh_install 2 1 Hne) as (_ & _ & _ & Hdel & _).
  exact Hdel.
Defined.

End tab_more.

(** ** Reordering again *)

Section reorder_more.
Import database props store_props.

(** A reordering that names no ticker of the tab - an empty sequence, a
    tab without rows, an id no tab has - returns true and changes nothing. *)
Theorem reorder_watchlist_nothing_named (s : Store) (tab_id : Z)
    (tickers : list string) :
  (∀ e t, e ∈ watchlist s → w_tab_id e = tab_id → t ∈ tickers →
          normalize t ≠ w_ticker e) →
  reorder_watchlist s tab_id tickers = (true, s).
Proof.
  intros Hnone. rewrite reorder_watchlist_rows. rewrite fmap_unchanged.
  - by rewrite store_eta.
  - intros e He. unfold reordered.
    destruct (decide (w_tab_id e = tab_id)) as [Htab|]; [|done].
    rewrite position_from_none; [done|]. intros t Ht. by apply (Hnone e t).
Qed.

Lemma reorder_watchlist_nothing_named_witness :
  reorder_watchlist fresh_install 1 [] = (true, fresh_install)
  ∧ reorder_watchlist fresh_install 99 ["AEM"; "TLT"] = (true, fresh_install).
Proof.
  split.
  - apply reorder_watchlist_nothing_named. intros e t _ _ Ht.
    by apply elem_of_nil in Ht.
  - apply reorder_watchlist_nothing_named. intros e t He Htab _. exfalso.
    revert e He Htab.
    apply (proj1 (Forall_forall (λ e, w_tab_id e ≠ 99) (watchlist fresh_install))).
    apply (bool_decide_unpack _). by vm_compute.
Defined.

(** Of two reorderings in a row the second decides the listing, when it
    is a permutation of the tab's tickers. *)
Theorem reorder_twice (s : Store) (tab_id : Z) (first second : list string) :
  NoDup (tickers_of s tab_id) →
  normalize <$> second ≡ₚ tickers_of s tab_id →
  wd_ticker <$> get_watchlist
    (reorder_watchlist (reorder_watchlist s tab_id first).2 tab_id second).2
    tab_id
  = normalize <$> second.
Proof.
  intros Huniq Hperm.
  pose proof (tickers_of_reorder s tab_id tab_id first) as Hsame.
  rewrite reorder_then_list.
  - rewrite Hsame. apply filter_all, Forall_forall. intros t Ht.
    by rewrite <- Hperm.
  - by rewrite Hsame.
  - by rewrite Hperm.
  - intros t Ht. rewrite Hsame in Ht. by rewrite Hperm.
Qed.

Lemma reorder_twice_witness :
  wd_ticker <$> get_watchlist
    (reorder_watchlist (reorder_watchlist fresh_install 1 ["TLT"; "AEM"]).2 1
       ["vti"; "aem"; "fsagx"; "tlt"]).2 1
  = ["VTI"; "AEM"; "FSAGX"; "TLT"].
Proof.
  apply (reorder_twice fresh_install 1 ["TLT"; "AEM"]
           ["vti"; "aem"; "fsagx"; "tlt"]).
  - apply (bool_decide_unpack _). by vm_compute.
  - apply (bool_decide_unpack _). by vm_compute.
Defined.

End reorder_more.

(** ** What holds of every store the program produces *)

Section reachable_more.
Import database props store_props.

(** The rowids of [watchlist] are distinct, positive and covered by the
    AUTOINCREMENT counter. *)
Lemma reachable_watchlist_ids (s : Store) :
  reachable s →
  NoDup (w_id <$> watchlist s)
  ∧ 0 <= watchlist_seq s
  ∧ ∀ e, e ∈ watchlist s → 0 < w_id e <= watchlist_seq s.
Proof.
  induction 1 as [now s Hrun|s now s' Hreach IH Hrun|s name now _ IH
    |s tab_id new_name _ IH|s tab_id _ IH|s tab_id ticker name now r _ IH Hrun
    |s tab_id tickers _ IH|s tab_id ticker _ IH].
  - vm_compute in Hrun. injection Hrun as <-. split; [|split].
    + apply (bool_decide_unpack _). by vm_compute.
    + done.
    + apply Forall_forall, (bool_decide_unpack _). by vm_compute.
  - rewrite init_db_populated in Hrun by (by apply reachable_ok).
    by injection Hrun as <-.
  - done.
  - done.
  - destruct IH as (Hnd & Hseq & Hle). unfold delete_tab.
    destruct (decide (length (tabs s) <= 1)%nat); [done|]. simpl.
    destruct (decide _); [done|]. split; [|split; [done|]].
    + by apply NoDup_fmap_filter.
    + intros e [_ He]%list_elem_of_filter. by apply Hle.
  - destruct IH as (Hnd & Hseq & Hle).
    destruct (add_ticker_cases s tab_id ticker name now) as [[Hr _]|[Hr _]];
      rewrite Hr in Hrun; injection Hrun as <-; [done|].
    destruct (next_rowid_fresh (watchlist_seq s) (w_id <$> watchlist s))
      as [Hfresh Hids].
    unfold append_watchlist. simpl. split; [|split; [lia|]].
    + rewrite fmap_app. apply NoDup_app. split; [done|].
      split; [|apply NoDup_singleton].
      intros x Hx ->%list_elem_of_singleton. specialize (Hids _ Hx).
      simpl in Hids. lia.
    + intros e [He| ->%list_elem_of_singleton]%elem_of_app; simpl.
      * specialize (Hle e He). lia.
      * lia.
  - destruct IH as (Hnd & Hseq & Hle). rewrite reorder_watchlist_rows. simpl.
    split; [|split; [done|]].
    + rewrite <- list_fmap_compose.
      rewrite (list_fmap_ext _ w_id (watchlist s)); [done|].
      intros _ e _. simpl. apply reordered_fields.
    + intros e' (e & -> & He)%list_elem_of_fmap.
      rewrite (proj2 (proj2 (reordered_fields tab_id 0 tickers e))). by apply Hle.
  - destruct IH as (Hnd & Hseq & Hle). simpl. split; [|split; [done|]].
    + by apply NoDup_fmap_filter.
    + intros e [_ He]%list_elem_of_filter. by apply Hle.
Qed.

(** In every store the program produces, both tables have distinct,
    positive ids that their AUTOINCREMENT counters cover, so a new row
    never takes the id of a row that is or was there. *)
Theorem reachable_ids (s : Store) :
  reachable s →
  NoDup (t_id <$> tabs s)
  ∧ (∀ t, t ∈ tabs s → 0 < t_id t <= tabs_seq s)
  ∧ NoDup (w_id <$> watchlist s)
  ∧ (∀ e, e ∈ watchlist s → 0 < w_id e <= watchlist_seq s)
  ∧ (∀ name now, tabs_seq s < d_id (create_tab s name now).1)
  ∧ (∀ tab_id ticker name now s1,
       add_ticker s tab_id ticker name now = Ok (true, s1) →
       ∃ e, watchlist s1 = watchlist s ++ [e] ∧ watchlist_seq s < w_id e).
Proof.
  intros Hreach.
  destruct (reachable_ok s Hreach) as [_ Hpk Hseq _ _ _].
  destruct (reachable_watchlist_ids s Hreach) as (Hwpk & _ & Hwseq).
  split; [done|]. split; [done|]. split; [done|]. split; [done|]. split.
  - intros name now. rewrite create_tab_row. simpl.
    apply (proj1 (next_rowid_fresh _ _)).
  - intros tab_id ticker name now s1 Hadd.
    destruct (add_ticker_cases s tab_id ticker name now) as [[Hr _]|[Hr _]];
      rewrite Hr in Hadd; [done|]. injection Hadd as <-.
    eexists. split; [reflexivity|]. simpl. apply (proj1 (next_rowid_fresh _ _)).
Qed.

Lemma reachable_ids_witness :
  reachable fresh_install
  ∧ NoDup (w_id <$> watchlist fresh_install)
  ∧ tabs_seq fresh_install < d_id (create_tab fresh_install "X" 0).1.
Proof.
  assert (reachable fresh_install) as Hreach.
  { apply (reach_install 0). by vm_compute. }
  split; [done|].
  destruct (reachable_ids fresh_install Hreach) as (_ & _ & Hw & _ & Hnew & _).
  split; [exact Hw|apply Hnew].
Defined.

(** In every store the program produces, each watchlist entry belongs to
    a tab that exists (deleting a tab takes its entries along), tickers are
    stored upper-cased and trimmed, and no tab holds two entries whose
    tickers agree up to case and surrounding blanks. *)
Theorem reachable_watchlist (s : Store) :
  reachable s →
  (∀ e, e ∈ watchlist s → tab_exists s (w_tab_id e))
  ∧ (∀ e, e ∈ watchlist s → w_ticker e = strip (upper (w_ticker e)))
  ∧ (∀ e1 e2, e1 ∈ watchlist s → e2 ∈ watchlist s →
       w_tab_id e1 = w_tab_id e2 →
       normalize (w_ticker e1) = normalize (w_ticker e2) → e1 = e2)
  ∧ (∀ tab_id ticker, pair_exists s tab_id (normalize ticker) →
       ∀ name now, add_ticker s tab_id ticker name now = Ok (false, s)).
Proof.
  intros [_ _ _ Hfk Huniq Hnorm]%reachable_ok.
  split; [done|]. split; [|split].
  - intros e He. symmetry. by apply Hnorm.
  - intros e1 e2 He1 He2 Htab Htk.
    rewrite (Hnorm e1 He1), (Hnorm e2 He2) in Htk.
    apply (NoDup_fmap_elem_inj (λ e, (w_tab_id e, w_ticker e)) (watchlist s));
      [done..|]. by rewrite Htab, Htk.
  - intros tab_id ticker Hpair name now.
    destruct (add_ticker_cases s tab_id ticker name now) as [[Hr _]|[_ [Hno _]]];
      done.
Qed.

Lemma reachable_watchlist_witness :
  reachable fresh_install
  ∧ add_ticker fresh_install 2 " aapl" "" 0 = Ok (false, fresh_install).
Proof.
  assert (reachable fresh_install) as Hreach.
  { apply (reach_install 0). by vm_compute. }
  split; [done|].
  destruct (reachable_watchlist fresh_install Hreach) as (_ & _ & _ & Hdup).
  apply Hdup. apply unique_violation_spec. by vm_compute.
Defined.

End reachable_more.

(** ** The migration of an old watchlist table *)

Section migration_facts.
Import database props store_props.

#[local] Instance backfill_order_trans : Transitive backfill_order.
Proof. intros a b c. unfold backfill_order. lia. Qed.
#[local] Instance backfill_order_total : Total backfill_order.
Proof. intros a b. unfold backfill_order. lia. Qed.

Lemma set_w_sort_order_twice (i j : Z) (e : Entry) :
  set_w_sort_order i (set_w_sort_order j e) = set_w_sort_order i e.
Proof. done. Qed.

(** The back-fill loop over rows [V] sorted by tab and time, with distinct
    ids: each row visited gets as [sort_order] the number of rows of its
    tab visited before it, and nothing else changes. *)
Lemma backfill_loop (V w0 : list Entry) :
  NoDup (w_id <$> V) → StronglySorted backfill_order V →
  ∃ g : Entry → Entry,
    fold_left backfill_step ((λ e, (w_id e, w_tab_id e)) <$> V) (None, 0, w0)
    = (w_tab_id <$> last V, backfill_count V, g <$> w0)
    ∧ (∀ e, g e = set_w_sort_order (w_sort_order (g e)) e)
    ∧ (∀ P v Q e, V = P ++ v :: Q → w_id e = w_id v →
         w_sort_order (g e)
         = Z.of_nat (length (filter (λ x, w_tab_id x = w_tab_id v) P))).
Proof.
  induction V as [|u V IH] using rev_ind; intros Hnd Hsorted.
  { exists id. split; [by rewrite list_fmap_id|]. split; [by intros []|].
    intros P v Q e HV. by destruct P. }
  rewrite fmap_app in Hnd. apply NoDup_app in Hnd as (Hnd & Hfresh & _).
  apply StronglySorted_app in Hsorted as (Hbefore & HsV & _).
  destruct (IH Hnd HsV) as (g & Hrun & Hg & Hrank).
  assert (∀ v, v ∈ V → w_id v ≠ w_id u) as Hids.
  { intros v Hv Heq. apply (Hfresh (w_id v)); [by apply list_elem_of_fmap_2|].
    rewrite Heq. by left. }
  set (order := Z.of_nat (length (filter (λ x, w_tab_id x = w_tab_id u) V))).
  assert ((if decide (Some (w_tab_id u) = w_tab_id <$> last V)
           then backfill_count V else 0) = order) as Horder.
  { unfold backfill_count, order.
    destruct (last V) as [u'|] eqn:Hlast; simpl.
    - destruct (decide (Some (w_tab_id u) = Some (w_tab_id u'))) as [[= Heq]|Hne].
      + by rewrite Heq.
      + rewrite filter_none; [done|]. apply Forall_forall. intros x Hx Htab.
        apply last_Some in Hlast as [V' ->].
        assert (backfill_order u' u) as Hu
          by (apply Hbefore; [apply elem_of_app; right; by left|by left]).
        assert (w_tab_id x <= w_tab_id u') as Hxu.
        { apply elem_of_app in Hx as [Hx| ->%list_elem_of_singleton]; [|lia].
          apply StronglySorted_app in HsV as (HV' & _ & _).
          specialize (HV' x u' Hx (list_elem_of_here _ _)).
          unfold backfill_order in HV'. lia. }
        unfold backfill_order in Hu.
        assert (w_tab_id u ≠ w_tab_id u') by congruence. lia.
    - apply last_None in Hlast as ->. done. }
  set (g' := λ e, if decide (w_id (g e) = w_id u)
                  then set_w_sort_order order (g e) else g e).
  exists g'. split; [|split].
  - rewrite fmap_app, fold_left_app, Hrun. simpl. rewrite Horder.
    rewrite last_snoc. simpl. f_equal; [f_equal|].
    + unfold backfill_count. rewrite last_snoc, filter_app, length_app.
      rewrite filter_cons, decide_True by done. fold order. simpl. lia.
    + unfold update_sort_order_by_id. rewrite <- list_fmap_compose. done.
  - intros e. unfold g'. destruct (decide (w_id (g e) = w_id u)); [|apply Hg].
    rewrite (Hg e). done.
  - intros P v Q e HV Hid.
    assert (w_id (g e) = w_id e) as Hge by (by rewrite (Hg e)).
    destruct Q as [|u' Q _] using rev_ind.
    + apply app_inj_tail in HV as [-> ->]. unfold g'.
      rewrite decide_True by congruence. done.
    + rewrite app_comm_cons, app_assoc in HV.
      apply app_inj_tail in HV as [-> ->]. unfold g'.
      rewrite decide_False.
      * by apply (Hrank P v Q).
      * rewrite Hge, Hid. apply Hids. apply elem_of_app. right. by left.
Qed.

(** The migration keeps every row and every column it found, and numbers
    the rows of each tab from 0 in the order they were added: within a
    tab, a row added earlier gets the smaller [sort_order], no two rows
    share one, and each lies below the number of rows of the tab. *)
Theorem migrate_backfills (ts : list Tab) (ws : list LegacyEntry)
    (tseq wseq : Z) :
  NoDup (l_id <$> ws) →
  let m := migrate ts ws tseq wseq in
  tabs m = ts
  ∧ (λ e, (w_id e, w_tab_id e, w_ticker e, w_name e, w_added_at e))
      <$> watchlist m
    = (λ l, (l_id l, l_tab_id l, l_ticker l, l_name l, l_added_at l)) <$> ws
  ∧ (∀ e1 e2, e1 ∈ watchlist m → e2 ∈ watchlist m →
       w_tab_id e1 = w_tab_id e2 →
       (w_added_at e1 < w_added_at e2 → w_sort_order e1 < w_sort_order e2)
       ∧ (w_sort_order e1 = w_sort_order e2 → e1 = e2))
  ∧ (∀ e, e ∈ watchlist m →
       0 <= w_sort_order e
            < Z.of_nat (length (entries_of m (w_tab_id e)))).
Proof.
  intros Hpk m.
  destruct (migrate_rows ts ws tseq wseq) as [Htabs Hkept]. fold m in Htabs, Hkept.
  split; [done|]. split; [done|].
  set (w0 := legacy_row <$> ws).
  set (V := merge_sort backfill_order w0).
  assert (w_id <$> w0 = l_id <$> ws) as Hids0.
  { unfold w0. rewrite <- list_fmap_compose. by apply list_fmap_ext. }
  assert (NoDup (w_id <$> w0)) as Hnd0 by (by rewrite Hids0).
  assert (V ≡ₚ w0) as Hperm by apply merge_sort_Permutation.
  assert (NoDup (w_id <$> V)) as HndV by (by rewrite Hperm).
  assert (StronglySorted backfill_order V) as HsV
    by apply (StronglySorted_merge_sort _).
  destruct (backfill_loop V w0 HndV HsV) as (g & Hrun & Hg & Hrank).
  assert (watchlist m = g <$> w0) as Hw.
  { unfold m, migrate. simpl. fold legacy_row. fold w0. fold V. by rewrite Hrun. }
  assert (∀ e, w_tab_id (g e) = w_tab_id e ∧ w_added_at (g e) = w_added_at e)
    as Hfields by (intros e; by rewrite (Hg e)).
  assert (∀ T, length (entries_of m T)
               = length (filter (λ x, w_tab_id x = T) V)) as Hlen.
  { intros T. unfold entries_of. rewrite Hw, Hperm. clear -Hfields.
    induction w0 as [|e w IH]; csimpl; [done|].
    rewrite !filter_cons, (proj1 (Hfields e)).
    destruct (decide (w_tab_id e = T)); simpl; by rewrite IH. }
  split.
  - intros e1' e2' He1 He2 Htab. rewrite Hw in He1, He2.
    apply list_elem_of_fmap in He1 as (e1 & -> & He1).
    apply list_elem_of_fmap in He2 as (e2 & -> & He2).
    rewrite !(proj1 (Hfields _)) in Htab. rewrite !(proj2 (Hfields _)).
    destruct (decide (w_id e1 = w_id e2)) as [Hid|Hid].
    { assert (e1 = e2) as -> by by apply (NoDup_fmap_elem_inj w_id w0).
      split; [lia|done]. }
    assert (e1 ∈ V) as (P1 & Q1 & HV)%list_elem_of_split by by rewrite Hperm.
    assert (e2 ∈ V) as He2V by by rewrite Hperm.
    rewrite HV in He2V. apply elem_of_app in He2V as [Hin|Hin].
    + apply list_elem_of_split in Hin as (A & B & ->).
      rewrite <- app_assoc in HV. simpl in HV.
      rewrite (Hrank (A ++ e2 :: B) e1 Q1 e1);
        [|by rewrite HV, <- app_assoc|done].
      rewrite (Hrank A e2 (B ++ e1 :: Q1) e2 HV eq_refl).
      rewrite Htab, filter_app, length_app, filter_cons, decide_True by done.
      simpl.
      assert (backfill_order e2 e1) as Hord.
      { rewrite HV in HsV. apply StronglySorted_app in HsV as (_ & _ & HsV).
        apply StronglySorted_inv in HsV as [_ Hall].
        rewrite Forall_forall in Hall. apply Hall.
        apply elem_of_app. right. by left. }
      unfold backfill_order in Hord. split; intros; lia.
    + apply elem_of_cons in Hin as [->|Hin]; [done|].
      apply list_elem_of_split in Hin as (B & C & ->).
      rewrite (Hrank P1 e1 (B ++ e2 :: C) e1 HV eq_refl).
      rewrite (Hrank (P1 ++ e1 :: B) e2 C e2);
        [|by rewrite HV, <- app_assoc|done].
      rewrite <- Htab, filter_app, length_app, filter_cons, decide_True by done.
      simpl. split; intros; lia.
  - intros e' He'. rewrite Hlen. rewrite Hw in He'.
    apply list_elem_of_fmap in He' as (e & -> & He).
    rewrite (proj1 (Hfields e)).
    assert (e ∈ V) as (P & Q & HV)%list_elem_of_split by by rewrite Hperm.
    rewrite (Hrank P e Q e HV eq_refl). rewrite HV.
    rewrite filter_app, length_app, filter_cons, decide_True by done.
    simpl. lia.
Qed.

Lemma migrate_backfills_witness :
  let ws := [ {| l_id := 1; l_tab_id := 5; l_ticker := "A"; l_name := "";
                 l_added_at := 30 |};
              {| l_id := 2; l_tab_id := 5; l_ticker := "B"; l_name := "";
                 l_added_at := 20 |};
              {| l_id := 3; l_tab_id := 4; l_ticker := "B"; l_name := "";
                 l_added_at := 20 |} ] in
  NoDup (l_id <$> ws)
  ∧ w_sort_order <$> watchlist (migrate [] ws 0 3) = [1; 0; 0]
  ∧ ∀ e, e ∈ watchlist (migrate [] ws 0 3) →
         0 <= w_sort_order e
              < Z.of_nat (length (entries_of (migrate [] ws 0 3) (w_tab_id e))).
Proof.
  intros ws.
  assert (NoDup (l_id <$> ws)) as Hpk.
  { apply (bool_decide_unpack _). by vm_compute. }
  split; [done|]. split; [by vm_compute|].
  destruct (migrate_backfills [] ws 0 3 Hpk) as (_ & _ & _ & Hrange).
  exact Hrange.
Defined.

End migration_facts.
(** ** The routes of app.py *)

Section route_facts.
Import database props store_props routes.

Lemma rename_tab_found (s : Store) (tab_id : Z) (new_name : string) :
  (rename_tab s tab_id new_name).1 = true ↔ tab_exists s tab_id.
Proof.
  simpl. rewrite bool_decide_eq_true, rowcount_positive. by unfold tab_exists.
Qed.

Lemma rename_tab_missing (s : Store) (tab_id : Z) (new_name : string) :
  ¬ tab_exists s tab_id → rename_tab s tab_id new_name = (false, s).
Proof.
  intros Hno. unfold rename_tab. f_equal.
  - apply bool_decide_eq_false. rewrite rowcount_positive. done.
  - rewrite fmap_unchanged; [apply store_eta|].
    intros t Ht. rewrite decide_False; [done|].
    intros Hid. apply Hno. by exists t.
Qed.

Lemma delete_tab_found (s : Store) (tab_id : Z) :
  (delete_tab s tab_id).1 = true
  ↔ (2 <= length (tabs s))%nat ∧ tab_exists s tab_id.
Proof.
  unfold delete_tab. destruct (decide (length (tabs s) <= 1)%nat) as [Hle|Hgt].
  { simpl. split; [done|]. intros [? _]. lia. }
  simpl. rewrite bool_decide_eq_true, rowcount_positive. unfold tab_exists.
  split; [intros Hex; split; [lia|done]|by intros [_ Hex]].
Qed.

Lemma delete_tab_missing (s : Store) (tab_id : Z) :
  (delete_tab s tab_id).1 = false → (delete_tab s tab_id).2 = s.
Proof.
  unfold delete_tab. destruct (decide (length (tabs s) <= 1)%nat); [done|].
  simpl. rewrite bool_decide_eq_false, rowcount_positive. intros Hno.
  assert (filter (λ t, t_id t = tab_id) (tabs s) = []) as ->.
  { apply filter_none, Forall_forall. intros t Ht Hid. apply Hno. by exists t. }
  rewrite filter_all.
  - simpl. apply store_eta.
  - apply Forall_forall. intros t Ht Hid. apply Hno. by exists t.
Qed.

(** [DELETE /api/tabs/{tab_id}] answers 200 exactly when the store has two
    or more tabs and one of them has the id; the tab and its watchlist rows
    are then gone.  In every other case - the last tab, but also an id that
    no tab has - it answers 400 with the message "Cannot delete the last
    tab" and leaves the store as it was. *)
Theorem api_delete_tab_replies (s : Store) (tab_id : Z) :
  let r := api_delete_tab s tab_id in
  (code r.1 = 200 ↔ (2 <= length (tabs s))%nat ∧ tab_exists s tab_id)
  ∧ (code r.1 = 200 →
     body r.1 = [ ("status", JStr "deleted"); ("id", JInt tab_id) ]
     ∧ ¬ tab_exists r.2 tab_id
     ∧ (∀ e, e ∈ watchlist r.2 → w_tab_id e ≠ tab_id))
  ∧ (code r.1 ≠ 200 →
     r = ({| code := 400;
             body := [ ("status", JStr "failed");
                       ("message", JStr "Cannot delete the last tab") ] |},
          s)).
Proof.
  intros r. subst r. unfold api_delete_tab.
  pose proof (delete_tab_found s tab_id) as Hfound.
  pose proof (delete_tab_missing s tab_id) as Hmiss.
  destruct (delete_tab s tab_id) as [[|] s'] eqn:Hdel; simpl in *.
  - split; [by split; [intros _; apply Hfound|]|].
    split; [|done]. intros _. split; [done|].
    destruct Hfound as [[Hmany Hex] _]; [done|].
    rewrite (delete_tab_many s tab_id Hmany Hex) in Hdel.
    injection Hdel as <-. simpl. split.
    + intros (t & [Hne _]%list_elem_of_filter & Hid). done.
    + by intros e [Hne _]%list_elem_of_filter.
  - split.
    { split; [done|]. intros Hex%Hfound. done. }
    split; [done|]. intros _. by rewrite Hmiss.
Qed.

(** [PUT /api/tabs/{tab_id}] answers 200 exactly when a tab has the id.
    The answer then repeats the name as it was sent, while the tab is
    stored under the trimmed name.  Otherwise the answer is 404 and the
    store is as it was. *)
Theorem api_rename_tab_replies (s : Store) (tab_id : Z) (body_name : string) :
  let r := api_rename_tab s tab_id body_name in
  (code r.1 = 200 ↔ tab_exists s tab_id)
  ∧ (code r.1 = 200 →
     body r.1 = [ ("status", JStr "renamed"); ("id", JInt tab_id);
                  ("name", JStr body_name) ]
     ∧ (∀ t, t ∈ tabs r.2 → t_id t = tab_id → t_name t = strip body_name)
     ∧ watchlist r.2 = watchlist s)
  ∧ (code r.1 ≠ 200 →
     r = ({| code := 404; body := [ ("status", JStr "not_found") ] |}, s)).
Proof.
  intros r. subst r. unfold api_rename_tab.
  pose proof (rename_tab_found s tab_id body_name) as Hfound.
  pose proof (rename_tab_missing s tab_id body_name) as Hmiss.
  pose proof (λ t', rename_tab_names s tab_id body_name t') as Hnames.
  destruct (rename_tab s tab_id body_name) as [[|] s'] eqn:Hren.
  - simpl in Hfound, Hnames. simpl.
    split; [by split; [intros _; apply Hfound|]|].
    split; [|done]. intros _. split; [done|]. split.
    + intros t Ht Hid. destruct (Hnames t Ht) as [[_ Hn]|[Hne _]]; done.
    + unfold rename_tab in Hren. by injection Hren as _ <-.
  - simpl in Hfound. simpl. split.
    { split; [done|]. intros Hex%Hfound. done. }
    split; [done|]. intros _.
    assert (¬ tab_exists s tab_id) as Hno by (by intros Hex%Hfound).
    by injection (Hmiss Hno) as ->.
Qed.

(** [DELETE /api/watchlist/{tab_id}/{ticker}] answers 200 exactly when the
    tab holds the ticker in its stored form, whatever the case of the
    letters in the request, and then removes that row as [remove_ticker]
    does; otherwise it answers 404 and leaves the store as it was. *)
Theorem api_remove_from_watchlist_replies (s : Store) (tab_id : Z)
    (ticker : string) :
  let r := api_remove_from_watchlist s tab_id ticker in
  (code r.1 = 200 ↔ pair_exists s tab_id (normalize ticker))
  ∧ r.2 = (remove_ticker s tab_id ticker).2
  ∧ (code r.1 = 200 → ¬ pair_exists r.2 tab_id (normalize ticker))
  ∧ (code r.1 ≠ 200 → code r.1 = 404 ∧ r.2 = s).
Proof.
  intros r. subst r. unfold api_remove_from_watchlist.
  assert (normalize (upper ticker) = normalize ticker) as Hnorm.
  { unfold normalize. by rewrite upper_idem. }
  assert (∀ e, hit tab_id (upper ticker) e ↔ hit tab_id ticker e) as Hhit.
  { intros e. by apply hit_same. }
  assert ((0 < length (filter (hit tab_id (upper ticker)) (watchlist s)))%nat
          ↔ pair_exists s tab_id (normalize ticker)) as Hcount.
  { rewrite rowcount_positive. unfold pair_exists, hit. rewrite Hnorm.
    split; intros (e & He & Hp); by exists e. }
  assert (filter (λ e, ¬ hit tab_id (upper ticker) e) (watchlist s)
          = filter (λ e, ¬ hit tab_id ticker e) (watchlist s)) as Hrows.
  { apply list_filter_iff. intros e. by rewrite Hhit. }
  rewrite !remove_ticker_rows, Hrows.
  destruct (bool_decide _) eqn:Hb; simpl.
  - apply bool_decide_eq_true in Hb. apply Hcount in Hb.
    split; [done|]. split; [done|]. split; [|done].
    intros _ (e & [Hno _]%list_elem_of_filter & Htab & Ht).
    apply Hno. by split.
  - apply bool_decide_eq_false in Hb.
    split; [split; [done|by intros Hex%Hcount]|]. split; [done|].
    split; [done|]. intros _. split; [done|].
    rewrite filter_all; [apply store_eta|].
    apply Forall_forall. intros e He [Htab Ht]. apply Hb, Hcount.
    by exists e.
Qed.

(** [PUT /api/watchlist/{tab_id}/reorder] answers 200 to every request -
    for a tab that does not exist and for tickers the tab does not hold as
    well; its 400 answer is never given.  It changes no tab and no column
    of a watchlist row other than [sort_order]. *)
Theorem api_reorder_watchlist_replies (s : Store) (tab_id : Z)
    (body_tickers : list string) :
  let r := api_reorder_watchlist s tab_id body_tickers in
  r.1 = {| code := 200;
           body := [ ("status", JStr "reordered"); ("tab_id", JInt tab_id) ] |}
  ∧ tabs r.2 = tabs s
  ∧ (λ e, (w_id e, w_tab_id e, w_ticker e, w_name e, w_added_at e))
      <$> watchlist r.2
    = (λ e, (w_id e, w_tab_id e, w_ticker e, w_name e, w_added_at e))
      <$> watchlist s.
Proof.
  intros r. subst r. unfold api_reorder_watchlist.
  rewrite reorder_watchlist_rows. simpl. split; [done|]. split; [done|].
  rewrite <- list_fmap_compose. apply list_fmap_ext. intros _ e _. simpl.
  unfold reordered. destruct (decide _); [|done].
  by destruct (position_from _ _ _).
Qed.

End route_facts.

(** ** The routes that fetch quotes *)

Section quote_route_facts.
Import database market_data props store_props routes route_props decimal.
Context {F : Type} `{PyFloat F}.
Variable as_completed : list (py (option (Quote F)) * string)
                        → list (py (option (Quote F)) * string).

Lemma get_tabs_rows (s : Store) : get_tabs s ≡ₚ tab_dict <$> tabs s.
Proof.
  change (get_tabs s) with (tab_dict <$> merge_sort tabs_order (tabs s)).
  by rewrite merge_sort_Permutation.
Qed.

Lemma get_tabs_empty (s : Store) : get_tabs s = [] ↔ tabs s = [].
Proof.
  split.
  - intros Hnil. pose proof (get_tabs_rows s) as Hperm. rewrite Hnil in Hperm.
    apply Permutation_nil in Hperm. by apply fmap_nil_inv in Hperm.
  - intros Hnil. unfold get_tabs. by rewrite Hnil.
Qed.

Lemma listed_get_tabs (s : Store) (tab_id : Z) :
  listed (get_tabs s) tab_id ↔ tab_exists s tab_id.
Proof.
  unfold listed, tab_exists. split.
  - intros (d & Hd & Hid). rewrite get_tabs_rows in Hd.
    apply list_elem_of_fmap in Hd as (t & -> & Ht). by exists t.
  - intros (t & Ht & Hid). exists (tab_dict t). split; [|done].
    rewrite get_tabs_rows. by apply list_elem_of_fmap_2.
Qed.


Lemma quotes_of_returns (yf : Provider F) (now : string)
    (tickers : list string) :
  ∃ m, quotes_of as_completed yf now tickers = Ok m.
Proof.
  unfold quotes_of, get_bulk_quotes. destruct (decide _); by eexists.
Qed.

(** The first tab with the id, or the first tab of all. *)
Lemma active_tab_id (tabs : list TabDict) (first : TabDict) (tab_id : Z) :
  let active :=
    d_id (default first (head (filter (λ t, d_id t = tab_id) tabs))) in
  (listed tabs tab_id → active = tab_id)
  ∧ (¬ listed tabs tab_id → active = d_id first).
Proof.
  destruct (filter (λ t, d_id t = tab_id) tabs) as [|t l] eqn:Hf; simpl.
  - split; [|done]. intros (t & Ht & Hid).
    assert (t ∈ filter (λ t, d_id t = tab_id) tabs) as Hin
      by by apply list_elem_of_filter.
    rewrite Hf in Hin. by apply elem_of_nil in Hin.
  - assert (t ∈ filter (λ t, d_id t = tab_id) tabs) as [Hid Ht]%list_elem_of_filter
      by (rewrite Hf; by left).
    split; [done|]. intros Hno. destruct Hno. by exists t.
Qed.

Section permuted.
Hypothesis as_completed_permutes : ∀ l, as_completed l ≡ₚ l.




End permuted.

(** [GET /] does not raise.  A store with a tab is left as it is; a store
    without one is seeded first, as [init_db] does.  The page shows the
    tabs in listing order; the active tab is the one asked for when the
    number is positive and a tab has it, and the first tab of the listing
    otherwise; the page shows the watchlist of the active tab and the
    quotes fetched for its tickers. *)
Theorem dashboard_active_tab (yf : Provider F) (now : string) (today : Z)
    (s : Store) (tab : Z) :
  ∃ ctx s' first rest,
    dashboard as_completed yf now today s tab = Ok (ctx, s')
    ∧ (tabs s ≠ [] → s' = s)
    ∧ (tabs s = [] → init_db (Current s) today = Ok s')
    ∧ c_tabs ctx = get_tabs s'
    ∧ get_tabs s' = first :: rest
    ∧ (0 < tab → tab_exists s' tab → c_active_tab_id ctx = tab)
    ∧ (tab <= 0 ∨ ¬ tab_exists s' tab → c_active_tab_id ctx = d_id first)
    ∧ c_watchlist ctx = get_watchlist s' (c_active_tab_id ctx)
    ∧ quotes_of as_completed yf now (wd_ticker <$> c_watchlist ctx)
      = Ok (c_quotes ctx).
Proof.
  assert (∃ s', (if decide (get_tabs s = [])
                 then s' ← init_db (Current s) today; Ok (s', get_tabs s')
                 else Ok (s, get_tabs s)) = Ok (s', get_tabs s')
                ∧ (tabs s ≠ [] → s' = s)
                ∧ (tabs s = [] → init_db (Current s) today = Ok s')
                ∧ tabs s' ≠ []) as (s' & Hst & Hkeep & Hseed & Hne).
  { destruct (decide (get_tabs s = [])) as [Hnil|Hsome].
    - apply get_tabs_empty in Hnil.
      destruct (seeding_total s today) as (s' & Hrun & Hne).
      rewrite <- init_db_unpopulated in Hrun by done.
      exists s'. rewrite Hrun. done.
    - exists s. split; [done|]. split; [done|].
      split; [|by rewrite <- get_tabs_empty].
      intros Hnil. by apply get_tabs_empty in Hnil. }
  destruct (get_tabs s') as [|first rest] eqn:Htabs.
  { by apply get_tabs_empty in Htabs. }
  set (requested := if decide (0 < tab) then tab else d_id first).
  set (active := d_id (default first
                   (head (filter (λ t, d_id t = requested) (first :: rest))))).
  destruct (quotes_of_returns yf now (wd_ticker <$> get_watchlist s' active))
    as [m Hm].
  exists {| c_tabs := first :: rest; c_active_tab_id := active;
            c_watchlist := get_watchlist s' active; c_quotes := m |},
         s', first, rest.
  destruct (active_tab_id (first :: rest) first requested) as [Hyes Hno].
  fold active in Hyes, Hno. rewrite <- Htabs in Hyes, Hno.
  rewrite listed_get_tabs in Hyes, Hno.
  split; [|split; [done|split; [done|split; [done|split; [done|]]]]].
  - unfold dashboard. rewrite Hst. clear Hyes Hno.
    unfold active, requested in *.
    destruct (decide (0 < tab)); simpl in *; by rewrite Hm.
  - simpl. split; [|split; [|done]].
    + intros Hpos Hex. unfold requested in Hyes.
      rewrite decide_True in Hyes by done. by apply Hyes.
    + intros Hor. unfold requested in Hyes, Hno.
      destruct (decide (0 < tab)) as [Hpos|Hneg].
      * apply Hno. destruct Hor; [lia|done].
      * apply Hyes. apply listed_get_tabs. exists first.
        split; [|done]. rewrite Htabs. by left.
Qed.

End quote_route_facts.

Section quote_route_witnesses.
Import database market_data props routes route_props decimal.



End quote_route_witnesses.

(** ** Chart data *)

Section chart_facts.
Import market_data charts.
Context {F : Type} `{PyFloat F}.

Lemma get_chart_data_request (yf : ChartProvider F) (start : string)
    (ticker period interval : string) :
  get_chart_data_body yf start ticker period interval
  = (hist ← yf ticker (chart_request start period interval);
     if decide (candles hist = []) then Ok []
     else iterrows hist (candles hist) []).
Proof.
  unfold get_chart_data_body, chart_request.
  by destruct (decide (period = "10y")).
Qed.

Lemma point_cases (hist : ChartFrame F) (row : Candle F) :
  (∃ p, point hist row = Ok p ∧ point_of hist row p)
  ∨ ((∃ e, point hist row = Raise e) ∧ unconvertible hist row).
Proof.
  unfold point, point_of, unconvertible.
  destruct (to_int (k_timestamp row)) as [ts|e] eqn:Hts; simpl.
  - destruct (with_volume hist) eqn:Hvol; simpl.
    + destruct (to_int (k_Volume row)) as [v|e] eqn:Hv; simpl.
      * left. eexists. split; [done|]. done.
      * right. split; [by eexists|]. right. split; [done|by eexists].
    + left. eexists. split; [done|]. done.
  - right. split; [by eexists|]. left. by eexists.
Qed.

Lemma point_of_convertible (hist : ChartFrame F) (row : Candle F) (p : Point F) :
  point_of hist row p → ¬ unconvertible hist row.
Proof.
  intros (Hts & _ & _ & _ & _ & Hvol) [[e He]|[Hwith [e He]]].
  - congruence.
  - rewrite Hwith in Hvol. congruence.
Qed.

(** The loop appends one point per row, or stops at the first row that
    does not convert. *)
Lemma iterrows_spec (hist : ChartFrame F) (rows : list (Candle F))
    (data : list (Point F)) :
  (∃ ps, iterrows hist rows data = Ok (data ++ ps)
         ∧ Forall2 (point_of hist) rows ps)
  ∨ ((∃ e, iterrows hist rows data = Raise e)
     ∧ Exists (unconvertible hist) rows).
Proof.
  revert data. induction rows as [|row rows IH]; intros data; simpl.
  { left. exists []. by rewrite app_nil_r. }
  destruct (point_cases hist row) as [(p & -> & Hp)|[[e ->] Hbad]]; simpl.
  - destruct (IH (data ++ [p])) as [(ps & -> & Hps)|[Hraise Hbad]].
    + left. exists (p :: ps). rewrite <- app_assoc. split; [done|].
      by constructor.
    + right. split; [done|]. by right.
  - right. split; [by eexists|]. by left.
Qed.

(** [get_chart_data] does not raise.  It asks the provider for pre- and
    post-market bars exactly when the interval is an intraday one, and
    sends the period "10y" as a start date.  The answer is empty when the
    request fails or brings no row.  Otherwise it is all or nothing: when
    every row converts, one point per row in the order of the rows - the
    prices rounded to two decimals, the volume 0 when the frame has no
    Volume column - and when the timestamp or the volume of a single row
    does not convert to an integer, the empty list. *)
Theorem get_chart_data_points (yf : ChartProvider F) (start : string)
    (ticker period interval : string) :
  ∃ data,
    get_chart_data yf start ticker period interval = Ok data
    ∧ (∀ e, yf ticker (chart_request start period interval) = Raise e →
            data = [])
    ∧ (∀ hist, yf ticker (chart_request start period interval) = Ok hist →
         (Forall2 (point_of hist) (candles hist) data
          ∧ ¬ Exists (unconvertible hist) (candles hist))
         ∨ (data = [] ∧ Exists (unconvertible hist) (candles hist))).
Proof.
  unfold get_chart_data, try_except. rewrite get_chart_data_request.
  destruct (yf ticker (chart_request start period interval)) as [hist|e]
    eqn:Hreq; simpl.
  - destruct (decide (candles hist = [])) as [Hnil|Hrows].
    + exists []. split; [done|]. split; [done|].
      intros hist' [= <-]. left. rewrite Hnil. split; [constructor|].
      by intros ?%Exists_nil.
    + destruct (iterrows_spec hist (candles hist) [])
        as [(ps & -> & Hps)|[[e ->] Hbad]].
      * exists ps. split; [done|]. split; [done|].
        intros hist' [= <-]. left. split; [done|].
        intros Hbad. apply Exists_exists in Hbad as (row & Hrow & Hbad).
        apply list_elem_of_lookup in Hrow as [i Hi].
        destruct (Forall2_lookup_l _ _ _ _ _ Hps Hi) as (p & _ & Hp).
        by apply (point_of_convertible hist row p).
      * exists []. split; [done|]. split; [done|].
        intros hist' [= <-]. by right.
  - exists []. split; [done|]. split; [done|]. intros hist' [=].
Qed.

End chart_facts.

